(** * Scripts/summary.py: daily summaries and DBH rollover correction

    A shallow embedding of [Scripts/summary.py] and the properties of its
    data pipeline.  Data frames are lists of row records, the order of the
    list being the positional order of the frame; the index labels that
    pandas keeps next to every row are modelled explicitly because
    [compute_dbh_df] slices by label.  Exceptions are a [result] type and
    the output folder is a finite map from paths to tables.

    Numbers: pandas holds the measurements as float64 (or int64); here they
    are exact rationals [Q], a missing value (NaN) is [None]. *)

From Stdlib Require Import QArith.
From Stdlib Require Import Ascii String.
From stdpp Require Import gmap strings list sorting.

Close Scope Q_scope.
Local Open Scope Z_scope.

(** ** Exceptions *)

Inductive exn := ValueError | KeyError | OverflowError | FileNotFoundError.

Inductive result (A : Type) :=
  | Ok (a : A)
  | Raise (e : exn).
Arguments Ok {A} a.
Arguments Raise {A} e.

Definition rbind {A B} (m : result A) (k : A → result B) : result B :=
  match m with Ok a => k a | Raise e => Raise e end.

(** [Series.apply(f)]: the first exception raised by [f] propagates. *)
Fixpoint apply_rows {A B} (f : A → result B) (l : list A) : result (list B) :=
  match l with
  | [] => Ok []
  | x :: l' => rbind (f x) (λ y, rbind (apply_rows f l') (λ ys, Ok (y :: ys)))
  end.

(** ** Naive date-times (minute resolution) *)

Record datetime := mkdt {
  year : Z; month : Z; day : Z; hour : Z; minute : Z }.

Definition is_leap (y : Z) : bool :=
  (y mod 4 =? 0) && (negb (y mod 100 =? 0) || (y mod 400 =? 0)).

Definition days_in_month (y m : Z) : Z :=
  if m =? 2 then (if is_leap y then 29 else 28)
  else if (m =? 4) || (m =? 6) || (m =? 9) || (m =? 11) then 30 else 31.

(** Days since 1970-01-01 in the proleptic Gregorian calendar. *)
Definition days_from_civil (y m d : Z) : Z :=
  let y' := if m <=? 2 then y - 1 else y in
  let era := y' / 400 in
  let yoe := y' - era * 400 in
  let mp := (m + 9) mod 12 in
  let doy := (153 * mp + 2) / 5 + d - 1 in
  let doe := yoe * 365 + yoe / 4 - yoe / 100 + doy in
  era * 146097 + doe - 719468.

Definition civil_from_days (z : Z) : Z * Z * Z :=
  let z' := z + 719468 in
  let era := z' / 146097 in
  let doe := z' - era * 146097 in
  let yoe := (doe - doe / 1460 + doe / 36524 - doe / 146096) / 365 in
  let doy := doe - (365 * yoe + yoe / 4 - yoe / 100) in
  let mp := (5 * doy + 2) / 153 in
  let d := doy - (153 * mp + 2) / 5 + 1 in
  let m := if mp <? 10 then mp + 3 else mp - 9 in
  let y := yoe + era * 400 in
  (if m <=? 2 then y + 1 else y, m, d).

(** Minutes since 1970-01-01 00:00 of a naive date-time, and back. *)
Definition to_minutes (dt : datetime) : Z :=
  (days_from_civil (year dt) (month dt) (day dt) * 24 + hour dt) * 60 + minute dt.

Definition of_minutes (t : Z) : datetime :=
  let '(y, m, d) := civil_from_days (t / 1440) in
  mkdt y m d ((t mod 1440) / 60) (t mod 60).

(** [Timestamp.dt.date]: the calendar day, as a day number. *)
Definition date_of (dt : datetime) : Z :=
  days_from_civil (year dt) (month dt) (day dt).

(** ** [datetime.strptime(s, "%Y.%m.%d %H:%M")]

    CPython turns the format into a regular expression, matches it at the
    start of the string and rejects the string when text remains or the
    calendar date does not exist.  The directive patterns are
      %Y  \d\d\d\d
      %m  1[0-2]|0[1-9]|[1-9]
      %d  3[0-1]|[1-2]\d|0[1-9]|[1-9]| [1-9]
      %H  2[0-3]|[0-1]\d|\d
      %M  [0-5]\d|\d
    and the blank of the format becomes \s+.  Every field is followed by a
    character that is no digit (or by the end), so the ordered alternatives
    never need backtracking.  The text is read as latin-1, one byte per
    character. *)

Definition is_digit (c : ascii) : bool :=
  let n := nat_of_ascii c in (48 <=? n)%nat && (n <=? 57)%nat.

Definition digit (c : ascii) : Z := Z.of_nat (nat_of_ascii c) - 48.

(** The character class [lo-hi] of digits. *)
Definition cls (lo hi : Z) (c : ascii) : bool :=
  is_digit c && (lo <=? digit c) && (digit c <=? hi).

(** \s on a str pattern: the characters with [str.isspace()]. *)
Definition is_space (c : ascii) : bool :=
  let n := nat_of_ascii c in
  ((9 <=? n)%nat && (n <=? 13)%nat) || ((28 <=? n)%nat && (n <=? 32)%nat)
  || (n =? 133)%nat || (n =? 160)%nat.

Definition re_Y (s : string) : option (Z * string) :=
  match s with
  | String a (String b (String c (String d r))) =>
      if is_digit a && is_digit b && is_digit c && is_digit d
      then Some (1000 * digit a + 100 * digit b + 10 * digit c + digit d, r)
      else None
  | _ => None
  end.

(** A field of one or two digits: [two] is the disjunction of the
    two-character alternatives, tried first, [one] the final one. *)
Definition re_field (two : ascii → ascii → bool) (one : ascii → bool)
    (s : string) : option (Z * string) :=
  match s with
  | String a (String b r) =>
      if two a b then Some (10 * digit a + digit b, r)
      else if one a then Some (digit a, String b r) else None
  | String a EmptyString => if one a then Some (digit a, EmptyString) else None
  | EmptyString => None
  end.

Definition re_m : string → option (Z * string) :=
  re_field (λ a b, (cls 1 1 a && cls 0 2 b) || (cls 0 0 a && cls 1 9 b))
           (cls 1 9).

Definition re_d (s : string) : option (Z * string) :=
  match re_field (λ a b, (cls 3 3 a && cls 0 1 b) || (cls 1 2 a && is_digit b)
                         || (cls 0 0 a && cls 1 9 b))
                 (cls 1 9) s with
  | Some r => Some r
  | None =>
      match s with
      | String a (String b r) =>
          if (nat_of_ascii a =? 32)%nat && cls 1 9 b then Some (digit b, r)
          else None
      | _ => None
      end
  end.

Definition re_H : string → option (Z * string) :=
  re_field (λ a b, (cls 2 2 a && cls 0 3 b) || (cls 0 1 a && is_digit b))
           is_digit.

Definition re_M : string → option (Z * string) :=
  re_field (λ a b, cls 0 5 a && is_digit b) is_digit.

Definition lit (c : ascii) (s : string) : option string :=
  match s with
  | String a r => if (nat_of_ascii a =? nat_of_ascii c)%nat then Some r else None
  | EmptyString => None
  end.

Fixpoint skip_spaces (s : string) : string :=
  match s with
  | String a r => if is_space a then skip_spaces r else s
  | EmptyString => s
  end.

(** \s+ *)
Definition re_spaces (s : string) : option string :=
  match s with
  | String a r => if is_space a then Some (skip_spaces r) else None
  | EmptyString => None
  end.

Definition strptime (s : string) : option datetime :=
  '(Y, s) ← re_Y s;
  s ← lit "." s;
  '(m, s) ← re_m s;
  s ← lit "." s;
  '(d, s) ← re_d s;
  s ← re_spaces s;
  '(H, s) ← re_H s;
  s ← lit ":" s;
  '(M, s) ← re_M s;
  match s with
  | EmptyString =>
      if (1 <=? Y) && (d <=? days_in_month Y m) then Some (mkdt Y m d H M)
      else None
  | _ => None
  end.

(** ** America/New_York

    The zone table belongs to the tz database shipped with pytz, not to the
    repository, so the conversion takes it as a parameter: [utcoffset t] is
    the offset from UTC, in minutes, in force at the instant [t] (minutes
    since the epoch, UTC).  [us_eastern_2007] is the rule the table follows
    from 2007 on, and pytz carries transitions up to 2037. *)

(** Sunday = 0. *)
Definition weekday (days : Z) : Z := (days + 4) mod 7.

(** The first Sunday on or after day [d] of month [m]. *)
Definition sunday_on_or_after (y m d : Z) : Z :=
  let d0 := days_from_civil y m d in
  d0 + (7 - weekday d0) mod 7.

(** Modelled from the spec: the America/New_York rules ("including DST
    rules") of the tz database, which is missing from the repository.
    Daylight time runs from the second Sunday of March, 07:00 UTC, to the
    first Sunday of November, 06:00 UTC. *)
Definition us_eastern_2007 (t : Z) : Z :=
  let '(y, _, _) := civil_from_days (t / 1440) in
  let dst_start := sunday_on_or_after y 3 8 * 1440 + 7 * 60 in
  let dst_end := sunday_on_or_after y 11 1 * 1440 + 6 * 60 in
  if (dst_start <=? t) && (t <? dst_end) then -240 else -300.

(** The instants for which the zone table is described by the rule. *)
Definition window_lo : Z := to_minutes (mkdt 2007 1 1 0 0).
Definition window_hi : Z := to_minutes (mkdt 2038 1 1 0 0).

Definition zone_table_ok (utcoffset : Z → Z) : Prop :=
  ∀ t, window_lo ≤ t < window_hi → utcoffset t = us_eastern_2007 t.

(** ** [convert_to_eastern] *)

Section Normalizer.
Variable utcoffset : Z → Z.

(** [localize] attaches UTC, [astimezone] adds the offset of the target
    zone at that instant, [replace(tzinfo=None)] drops the zone.  A
    result outside the years 1..9999 is an [OverflowError]. *)
Definition convert_to_eastern (dt_string : string) : result datetime :=
  match strptime dt_string with
  | None => Raise ValueError
  | Some dt =>
      let t := to_minutes dt in
      let local_dt := of_minutes (t + utcoffset t) in
      if (1 <=? year local_dt) && (year local_dt <=? 9999) then Ok local_dt
      else Raise OverflowError
  end.
End Normalizer.

(** ** Sorting

    [DataFrame.sort_values] is called without [kind], so pandas sorts with
    numpy's default quicksort.  numpy promises an ascending permutation and
    nothing about the order of equal keys; the algorithm behind the name
    depends on the numpy build.  The sort is therefore a parameter
    [argsort], from the key column to the positions in sorted order, and
    [sort_contract] is what numpy promises of it. *)

Definition sort_contract (argsort : list Z → list nat) : Prop :=
  ∀ ks, argsort ks ≡ₚ seq 0 (length ks) ∧
        Sorted Z.le (omap (λ i, ks !! i) (argsort ks)).

(** [DataFrame.take]: the rows at the given positions, in that order. *)
Definition take_rows {A} (indexer : list nat) (df : list A) : list A :=
  omap (λ i, df !! i) indexer.

(** Two sorts that meet the contract: insertion sort that keeps equal keys
    in their original order ([ties_reversed = false]) or reverses them. *)
Definition key_at (ks : list Z) (i : nat) : Z := default 0 (ks !! i).

Definition goes_before (ties_reversed : bool) (ks : list Z) (i j : nat) : bool :=
  if ties_reversed then key_at ks i <? key_at ks j
  else key_at ks i <=? key_at ks j.

Fixpoint insert_index (ties_reversed : bool) (ks : list Z) (i : nat)
    (l : list nat) : list nat :=
  match l with
  | [] => [i]
  | j :: l' =>
      if goes_before ties_reversed ks i j then i :: l
      else j :: insert_index ties_reversed ks i l'
  end.

Definition insertion_argsort (ties_reversed : bool) (ks : list Z) : list nat :=
  foldr (insert_index ties_reversed ks) [] (seq 0 (length ks)).

Definition stable_argsort := insertion_argsort false.
Definition reversing_argsort := insertion_argsort true.

(** ** Missing-value aware arithmetic and aggregates *)

Definition qmin (a b : Q) : Q := if Qle_bool a b then a else b.
Definition qmax (a b : Q) : Q := if Qle_bool a b then b else a.

(** [min] and [max] of a group: NaN is skipped, a group without a value
    gives NaN. *)
Fixpoint agg (op : Q → Q → Q) (l : list (option Q)) : option Q :=
  match l with
  | [] => None
  | None :: l' => agg op l'
  | Some x :: l' =>
      match agg op l' with
      | None => Some x
      | Some y => Some (op x y)
      end
  end.

Definition nanmin := agg qmin.
Definition nanmax := agg qmax.

(** Arithmetic on a column: NaN in, NaN out. *)
Definition lift2 (op : Q → Q → Q) (a b : option Q) : option Q :=
  match a, b with
  | Some x, Some y => Some (op x y)
  | _, _ => None
  end.

(** ** groupby

    Groups are keyed by the distinct keys in ascending order, rows without
    a key (NaT) belong to no group, and a group lists its rows in frame
    order. *)

Section GroupBy.
Context {K R : Type} (kcmp : K → K → comparison) (key : R → option K).

Fixpoint insert_key (k : K) (ks : list K) : list K :=
  match ks with
  | [] => [k]
  | k' :: ks' =>
      match kcmp k k' with
      | Lt => k :: ks
      | Eq => ks
      | Gt => k' :: insert_key k ks'
      end
  end.

Definition group_keys (df : list R) : list K :=
  foldr insert_key [] (omap key df).

Definition has_key (k : K) (r : R) : bool :=
  match key r with
  | Some k' => match kcmp k k' with Eq => true | _ => false end
  | None => false
  end.

Definition group (k : K) (df : list R) : list R :=
  List.filter (has_key k) df.

Definition groupby (df : list R) : list (K * list R) :=
  (λ k, (k, group k df)) <$> group_keys df.
End GroupBy.

(** ** File names *)

Fixpoint rfind (c : ascii) (s : string) : option nat :=
  match s with
  | EmptyString => None
  | String a r =>
      match rfind c r with
      | Some i => Some (S i)
      | None => if Ascii.eqb a c then Some 0%nat else None
      end
  end.

(** [Path(file).stem] for a bare file name. *)
Definition stem (name : string) : string :=
  match rfind "." name with
  | Some i =>
      if (0 <? i)%nat && (i <? String.length name - 1)%nat
      then substring 0 i name else name
  | None => name
  end.

(** [s.split("_")[0]] *)
Fixpoint before_underscore (s : string) : string :=
  match s with
  | EmptyString => EmptyString
  | String a r => if Ascii.eqb a "_" then EmptyString
                  else String a (before_underscore r)
  end.

Definition station_of (file : string) : string := before_underscore (stem file).

Fixpoint ends_with (suffix s : string) : bool :=
  String.eqb s suffix ||
  match s with
  | EmptyString => false
  | String _ r => ends_with suffix r
  end.

Definition lower_char (c : ascii) : ascii :=
  let n := nat_of_ascii c in
  if (65 <=? n)%nat && (n <=? 90)%nat then ascii_of_nat (n + 32) else c.

Fixpoint lower (s : string) : string :=
  match s with
  | EmptyString => EmptyString
  | String a r => String (lower_char a) (lower r)
  end.

(** [os.path.join(folder, name)] for a relative [name]. *)
Definition path_join (folder name : string) : string :=
  if ends_with "/" folder || String.eqb folder "" then folder +:+ name
  else folder +:+ "/" +:+ name.

Definition SUMMARIES_FOLDER : string := "./Summaries".

(** ** Tables written to the output folder *)

Record climate_daily := mk_climate_daily {
  cd_Date : Z;
  T1_Min : option Q; T1_Max : option Q;
  T2_Min : option Q; T2_Max : option Q;
  T3_Min : option Q; T3_Max : option Q;
  Soil_Min : option Q; Soil_Max : option Q;
  Shake_Max : option Q;
  Rows : nat }.

Record dbh_daily := mk_dbh_daily {
  dd_Sensor_ID : string;
  dd_Date : Z;
  Min_Size : option Q;
  Max_Size : option Q;
  Growth_mm : option Q;
  Growth_cm : option Q }.

Inductive table :=
  | ClimateTable (rows : list climate_daily)
  | DbhTable (rows : list dbh_daily).

(** A stage reads its inputs, may write tables and may raise; what was
    written before an exception stays written. *)
Definition stage (A : Type) : Type :=
  gmap string table → result A * gmap string table.

Definition ret {A} (a : A) : stage A := λ fs, (Ok a, fs).
Definition raise {A} (e : exn) : stage A := λ fs, (Raise e, fs).
Definition lift {A} (r : result A) : stage A := λ fs, (r, fs).
Definition to_csv (path : string) (t : table) : stage () :=
  λ fs, (Ok (), <[path := t]> fs).
Definition sbind {A B} (m : stage A) (k : A → stage B) : stage B :=
  λ fs, match m fs with
        | (Ok a, fs') => k a fs'
        | (Raise e, fs') => (Raise e, fs')
        end.

Notation "x ←ˢ m ; k" := (sbind m (λ x, k))
  (at level 20, m at level 100, k at level 200, right associativity,
   format "x  ←ˢ  m ;  '/' k").

(** A [for] loop over a list. *)
Fixpoint for_each {A} (body : A → stage ()) (l : list A) : stage () :=
  match l with
  | [] => ret ()
  | x :: l' => _ ←ˢ body x; for_each body l'
  end.

(** * DBH processing *)

Module Dbh.

(** A cell of the Size column as [read_csv] delivers it: a token that
    reads as a number, an empty field (NaN), or any other text. *)
Inductive cell :=
  | Num (q : Q)
  | Empty
  | Text (s : string).

(** A line of a raw file.  Of the ten columns only Timestamp and Size are
    ever read; the others ride along unchanged and are left out. *)
Record raw_row := mk_raw { raw_Timestamp : string; raw_Size : cell }.

(** A row of the frame, with the index label pandas keeps for it. *)
Record row (S : Type) := mk_row {
  label : nat;
  Timestamp : datetime;
  Size : S }.
Arguments mk_row {S} _ _ _.
Arguments label {S} _.
Arguments Timestamp {S} _.
Arguments Size {S} _.

Definition baseline : Q := 8890%Q.

(** [pd.to_numeric(..., errors="coerce")] *)
Definition to_numeric (c : cell) : option Q :=
  match c with
  | Num q => Some q
  | Empty => None
  | Text _ => None
  end.

(** The column has a numeric dtype when no cell holds text. *)
Definition is_numeric_dtype (col : list cell) : bool :=
  forallb (λ c, match c with Text _ => false | _ => true end) col.

Definition as_number (c : cell) : option Q :=
  match c with
  | Num q => Some q
  | _ => None
  end.

(** The dtype test of the source, then the coercion.  [numeric] tells
    whether the column as read has a numeric dtype. *)
Definition coerce_size (numeric : bool) (df : list (row cell))
    : list (row (option Q)) :=
  let conv := if numeric then as_number else to_numeric in
  (λ r, mk_row (label r) (Timestamp r) (conv (Size r))) <$> df.

(** [df["Size"] == 8890]; NaN compares unequal. *)
Definition is_rollover (r : row (option Q)) : bool :=
  match Size r with
  | Some q => Qeq_bool q baseline
  | None => false
  end.

Definition rollover_points (df : list (row (option Q))) : list nat :=
  label <$> List.filter is_rollover df.

(** *** Label slicing: [df.loc[start:]]

    [Index.get_slice_bound(start, "left")]: the position of the label when
    the index has it; otherwise a binary search when the index is
    monotonic, and a [KeyError] when it is not. *)
Fixpoint get_loc (index : list nat) (lbl : nat) : option nat :=
  match index with
  | [] => None
  | l :: index' =>
      if (l =? lbl)%nat then Some 0%nat else S <$> get_loc index' lbl
  end.

Fixpoint is_monotonic (le : nat → nat → bool) (index : list nat) : bool :=
  match index with
  | a :: (b :: _) as index' => le a b && is_monotonic le index'
  | _ => true
  end.

Definition is_monotonic_increasing := is_monotonic Nat.leb.
Definition is_monotonic_decreasing := is_monotonic (λ a b, Nat.leb b a).

Definition count_if (p : nat → bool) (l : list nat) : nat :=
  length (List.filter p l).

Definition searchsorted_monotonic_left (index : list nat) (lbl : nat)
    : result nat :=
  if is_monotonic_increasing index
  then Ok (count_if (λ l, l <? lbl)%nat index)
  else if is_monotonic_decreasing index
  then Ok (length index - count_if (λ l, l <=? lbl)%nat (rev index))%nat
  else Raise KeyError.

Definition get_slice_bound_left (index : list nat) (lbl : nat) : result nat :=
  match get_loc index lbl with
  | Some p => Ok p
  | None => searchsorted_monotonic_left index lbl
  end.

Definition add_baseline (r : row (option Q)) : row (option Q) :=
  mk_row (label r) (Timestamp r) (lift2 Qplus (Size r) (Some baseline)).

(** [df.loc[start:, "Size"] += baseline] *)
Definition loc_add_baseline (start : nat) (df : list (row (option Q)))
    : result (list (row (option Q))) :=
  rbind (get_slice_bound_left (label <$> df) start)
        (λ p, Ok (take p df ++ (add_baseline <$> drop p df))).

Definition rollover_correction (df : list (row (option Q)))
    : result (list (row (option Q))) :=
  match last (rollover_points df) with
  | Some last_8890_index => loc_add_baseline (last_8890_index + 1) df
  | None => Ok df
  end.

Section Corrector.
Variable utcoffset : Z → Z.
Variable argsort : list Z → list nat.

Definition start_row : nat := 1.

(** Rows after [iloc[start_row:]], [reset_index] and the conversion of
    the Timestamp column. *)
Definition converted (raw : list raw_row) : result (list (row cell)) :=
  let df := drop start_row raw in
  rbind (apply_rows (convert_to_eastern utcoffset) (raw_Timestamp <$> df))
        (λ ts, Ok (zip_with (λ i '(t, r), mk_row i t (raw_Size r))
                            (seq 0 (length df)) (zip ts df))).

(** [df.sort_values("Timestamp", inplace=True)]: the rows move, the
    labels move with them. *)
Definition sort_values (df : list (row cell)) : list (row cell) :=
  take_rows (argsort ((λ r, to_minutes (Timestamp r)) <$> df)) df.

Definition compute_dbh_df (raw : list raw_row)
    : result (list (row (option Q))) :=
  rbind (converted raw) (λ df,
    let df := sort_values df in
    let df := coerce_size (is_numeric_dtype (raw_Size <$> raw)) df in
    rollover_correction df).

(** *** [process_dbh_folder] *)

Definition is_csv_any_case (file : string) : bool :=
  ends_with ".csv" (lower file).

(** The loop over the folder: every csv file is corrected and tagged
    with the sensor id of its name; the first exception ends the loop. *)
Fixpoint all_data (folder : list (string * list raw_row))
    : result (list (list (string * row (option Q)))) :=
  match folder with
  | [] => Ok []
  | (file, raw) :: folder' =>
      if negb (is_csv_any_case file) then all_data folder'
      else
        rbind (compute_dbh_df raw) (λ df,
        rbind (all_data folder') (λ dfs,
        Ok (((λ r, (station_of file, r)) <$> df) :: dfs)))
  end.

Definition sensor_day (r : string * row (option Q)) : option (string * Z) :=
  Some (r.1, date_of (Timestamp r.2)).

Definition key_compare (a b : string * Z) : comparison :=
  match String.compare a.1 b.1 with
  | Eq => Z.compare a.2 b.2
  | c => c
  end.

Definition daily_of_group (g : (string * Z) * list (string * row (option Q)))
    : dbh_daily :=
  let sizes := (λ r, Size r.2) <$> g.2 in
  let min_size := nanmin sizes in
  let max_size := nanmax sizes in
  let growth_mm := lift2 Qminus max_size min_size in
  let growth_cm := lift2 Qdiv growth_mm (Some 10%Q) in
  mk_dbh_daily g.1.1 g.1.2 min_size max_size growth_mm growth_cm.

Definition daily (combined : list (string * row (option Q))) : list dbh_daily :=
  daily_of_group <$> groupby key_compare sensor_day combined.

Definition out_path : string := path_join SUMMARIES_FOLDER "dbh_summary.csv".

Definition process_dbh_folder (folder : list (string * list raw_row))
    : stage (option (list dbh_daily)) :=
  dfs ←ˢ lift (all_data folder);
  match dfs with
  | [] => ret None
  | _ =>
      let combined := concat dfs in
      let daily := daily combined in
      _ ←ˢ to_csv out_path (DbhTable daily);
      ret (Some daily)
  end.
End Corrector.

End Dbh.

(** * Climate summaries *)

Module Climate.

Record record := mk_record {
  Timestamp : string;
  T1 : option Q; T2 : option Q; T3 : option Q;
  SM : option Q; SH : option Q }.

Section Summarizer.
(** [pd.to_datetime(col.astype(str), format="%Y.%m.%d %H:%M")] on one
    cell: a time, NaT ([None]), or an exception.  The parser is pandas'
    own and is taken as a parameter. *)
Variable to_datetime : string → result (option datetime).
Variable argsort : list Z → list nat.

(** [nargsort]: the rows with a time are sorted among themselves, the
    NaT rows follow in frame order. *)
Definition nargsort (keys : list (option Z)) : list nat :=
  let idx := seq 0 (length keys) in
  let non_nan_idx := List.filter (λ i, bool_decide (is_Some (mjoin (keys !! i)))) idx in
  let nan_idx := List.filter (λ i, bool_decide (mjoin (keys !! i) = None)) idx in
  take_rows (argsort (omap id keys)) non_nan_idx ++ nan_idx.

Definition sort_values (df : list (option datetime * record))
    : list (option datetime * record) :=
  take_rows (nargsort ((λ r : option datetime * record, to_minutes <$> r.1) <$> df)) df.

Definition Date (r : option datetime * record) : option Z := date_of <$> r.1.

(** ["count"]: the cells of the group that are not null. *)
Definition count (g : list (option datetime * record)) : nat :=
  length (List.filter (λ r, bool_decide (is_Some r.1)) g).

Definition summary_of_group (g : Z * list (option datetime * record))
    : climate_daily :=
  let col (f : record → option Q) := (λ r, f r.2) <$> g.2 in
  mk_climate_daily g.1
    (nanmin (col T1)) (nanmax (col T1))
    (nanmin (col T2)) (nanmax (col T2))
    (nanmin (col T3)) (nanmax (col T3))
    (nanmin (col SM)) (nanmax (col SM))
    (nanmax (col SH))
    (count g.2).

(** The frame that is grouped: parsed and sorted. *)
Definition parsed (df : list record) : result (list (option datetime * record)) :=
  rbind (apply_rows to_datetime (Timestamp <$> df)) (λ ts, Ok (zip ts df)).

Definition grouped (df : list (option datetime * record)) : list climate_daily :=
  summary_of_group <$> groupby Z.compare Date (sort_values df).

Definition dest_path (dest_folder station_id : string) : string :=
  path_join dest_folder (station_id +:+ "_daily.csv").

Definition daily_summary (df : list record) (station_id dest_folder : string)
    : stage () :=
  df ←ˢ lift (parsed df);
  to_csv (dest_path dest_folder station_id) (ClimateTable (grouped df)).

(** [folder] lists the files in the order [os.walk] yields them, each
    with the frame [read_csv] returns for it. *)
Definition summarize_folder (folder : list (string * list record))
    (dest_folder : string) : stage () :=
  for_each (λ '(file, df),
              if ends_with ".csv" file
              then daily_summary df (station_of file) dest_folder
              else ret ())
           folder.
End Summarizer.

End Climate.

(** * The whole run *)

Record world := mk_world {
  EXTRACT_FOLDER : list (string * list Climate.record);
  DBH_STATIC_FOLDER : list (string * list Dbh.raw_row);
  JOINED_DENDRO_CSV : bool;
  JOINED_TMS_CSV : bool }.

(** Only whether the two metadata files can be read matters here. *)
Definition join_metadata (w : world) : stage () :=
  if JOINED_DENDRO_CSV w && JOINED_TMS_CSV w then ret ()
  else raise FileNotFoundError.

Section Main.
Variable utcoffset : Z → Z.
Variable to_datetime : string → result (option datetime).
Variable argsort : list Z → list nat.

Definition main (w : world) : stage () :=
  _ ←ˢ Climate.summarize_folder to_datetime argsort (EXTRACT_FOLDER w) SUMMARIES_FOLDER;
  _ ←ˢ Dbh.process_dbh_folder utcoffset argsort (DBH_STATIC_FOLDER w);
  join_metadata w.
End Main.

(** * Vocabulary of the properties *)

Definition key_le (ks : list Z) (i j : nat) : Prop := key_at ks i ≤ key_at ks j.

(** One day of the window: the two conversions are inverse on it and its
    year is a year Python can represent. *)
Definition day_ok (d : Z) : bool :=
  let '(y, m, d') := civil_from_days d in
  (days_from_civil y m d' =? d) && (2006 <=? y) && (y <=? 2038).





(** A date-time that exists: the ranges Python's [datetime] accepts. *)
Definition valid_datetime (dt : datetime) : Prop :=
  1 ≤ year dt ≤ 9999 ∧ 1 ≤ month dt ≤ 12 ∧
  1 ≤ day dt ≤ days_in_month (year dt) (month dt) ∧
  0 ≤ hour dt ≤ 23 ∧ 0 ≤ minute dt ≤ 59.


(** A timestamp is inside the window of the zone table, or is rejected
    and never reaches the table. *)
Definition in_window (s : string) : bool :=
  match strptime s with
  | Some dt => (window_lo <=? to_minutes dt) && (to_minutes dt <? window_hi)
  | None => true
  end.

(** Readings taken every quarter of an hour, in file order, across the
    end of daylight time on 2023-11-05.  The clock is set back at 06:00
    UTC, so the last two rows sort before the first two. *)
Definition fall_back_file : list Dbh.raw_row :=
  [Dbh.mk_raw "Timestamp" (Dbh.Text "Size");
   Dbh.mk_raw "2023.11.05 05:30" (Dbh.Num 100);
   Dbh.mk_raw "2023.11.05 05:45" (Dbh.Num 8890);
   Dbh.mk_raw "2023.11.05 06:00" (Dbh.Num 20);
   Dbh.mk_raw "2023.11.05 06:15" (Dbh.Num 30)].

(** A file out of time order can also end in a [KeyError]: the label after
    the rollover row's label does not exist and the index is not
    monotonic. *)
Definition unordered_file : list Dbh.raw_row :=
  [Dbh.mk_raw "Timestamp" (Dbh.Text "Size");
   Dbh.mk_raw "2023.07.04 18:00" (Dbh.Num 50);
   Dbh.mk_raw "2023.07.04 16:00" (Dbh.Num 100);
   Dbh.mk_raw "2023.07.04 17:00" (Dbh.Num 8890)].

(** The sequence of the specification, in a file in time order. *)
Definition in_order_file : list Dbh.raw_row :=
  [Dbh.mk_raw "Timestamp" (Dbh.Text "Size");
   Dbh.mk_raw "2023.07.04 16:00" (Dbh.Num 100);
   Dbh.mk_raw "2023.07.04 16:15" (Dbh.Num 500);
   Dbh.mk_raw "2023.07.04 16:30" (Dbh.Num 8890);
   Dbh.mk_raw "2023.07.04 16:45" (Dbh.Num 50);
   Dbh.mk_raw "2023.07.04 17:00" (Dbh.Num 300)].

(** [r] is the least of the values [vs]; no answer when there is no
    value. *)
Definition least_of (vs : list Q) (r : option Q) : Prop :=
  match r with
  | Some m => m ∈ vs ∧ ∀ x, x ∈ vs → (m <= x)%Q
  | None => ∀ x, x ∉ vs
  end.

Definition greatest_of (vs : list Q) (r : option Q) : Prop :=
  match r with
  | Some m => m ∈ vs ∧ ∀ x, x ∈ vs → (x <= m)%Q
  | None => ∀ x, x ∉ vs
  end.

(** The values that are present in a column. *)
Definition present (col : list (option Q)) : list Q := omap id col.

(** The record's Timestamp falls on day [d]. *)
Definition falls_on (to_datetime : string → result (option datetime)) (d : Z)
    (r : Climate.record) : bool :=
  match to_datetime (Climate.Timestamp r) with
  | Ok (Some dt) => date_of dt =? d
  | _ => false
  end.

(** The strict order of a three-way comparison. *)
Definition key_lt {K} (kcmp : K → K → comparison) (a b : K) : Prop :=
  kcmp a b = Lt.



(** [r'] is [r] with its Size kept or raised by the baseline. *)
Definition kept_or_raised (r r' : Dbh.row (option Q)) : Prop :=
  Dbh.label r' = Dbh.label r ∧ Dbh.Timestamp r' = Dbh.Timestamp r ∧
  (Dbh.Size r' = Dbh.Size r ∨
   Dbh.Size r' = lift2 Qplus (Dbh.Size r) (Some Dbh.baseline)).


(** The file is summarized and its summary goes to [path]. *)
Definition writes_to (dest path : string) (f : string * list Climate.record) : bool :=
  ends_with ".csv" f.1 && String.eqb (Climate.dest_path dest (station_of f.1)) path.

(** What the output folder holds at [path] after the run: the summary of
    the last file written there, or what was there before. *)
Definition holds_last (to_datetime : string → result (option datetime))
    (argsort : list Z → list nat) (dest path : string)
    (folder : list (string * list Climate.record))
    (fs fs' : gmap string table) : Prop :=
  match last (List.filter (writes_to dest path) folder) with
  | Some (file, df) =>
      ∃ pdf, Climate.parsed to_datetime df = Ok pdf ∧
             fs' !! path = Some (ClimateTable (Climate.grouped argsort pdf))
  | None => fs' !! path = fs !! path
  end.

(** ** Inputs for the instances at the end of the file *)

(** A parser to run the climate stage with: the strings pandas reads as
    NaT give a missing time, what [strptime] accepts gives that time, and
    anything else is rejected. *)
Definition sample_to_datetime (s : string) : result (option datetime) :=
  if String.eqb s "nan" || String.eqb s "" then Ok None
  else match strptime s with
       | Some dt => Ok (Some dt)
       | None => Raise ValueError
       end.

Definition station_a_march : list Climate.record :=
  [Climate.mk_record "2023.03.01 10:00" (Some 1.5%Q) (Some 2%Q) None (Some 300%Q) None;
   Climate.mk_record "2023.03.01 08:00" None (Some 4%Q) None (Some 310%Q) (Some 1%Q);
   Climate.mk_record "nan" (Some 9%Q) None None None None;
   Climate.mk_record "2023.03.02 08:00" (Some (-3)%Q) None None None None].

Definition station_a_april : list Climate.record :=
  [Climate.mk_record "2023.04.01 10:00" (Some 7%Q) None None None None].

Definition station_a_march_parsed : list (option datetime * Climate.record) :=
  [(Some (mkdt 2023 3 1 10 0),
    Climate.mk_record "2023.03.01 10:00" (Some 1.5%Q) (Some 2%Q) None (Some 300%Q) None);
   (Some (mkdt 2023 3 1 8 0),
    Climate.mk_record "2023.03.01 08:00" None (Some 4%Q) None (Some 310%Q) (Some 1%Q));
   (None, Climate.mk_record "nan" (Some 9%Q) None None None None);
   (Some (mkdt 2023 3 2 8 0),
    Climate.mk_record "2023.03.02 08:00" (Some (-3)%Q) None None None None)].

Definition climate_folder : list (string * list Climate.record) :=
  [("A_march.csv", station_a_march); ("notes.txt", []);
   ("A_april.csv", station_a_april)].

(** A DBH file in time order with a token that is no number. *)
Definition noisy_file : list Dbh.raw_row :=
  [Dbh.mk_raw "Timestamp" (Dbh.Text "Size");
   Dbh.mk_raw "2023.07.04 16:00" (Dbh.Num 100);
   Dbh.mk_raw "2023.07.04 16:15" (Dbh.Text "ERR");
   Dbh.mk_raw "2023.07.04 16:45" (Dbh.Num 125);
   Dbh.mk_raw "2023.07.05 16:30" (Dbh.Num 130)].

Definition dbh_folder : list (string * list Dbh.raw_row) :=
  [("S1_2023.CSV", noisy_file); ("readme.md", [])].

Definition combined_sample : list (string * Dbh.row (option Q)) :=
  [("S1", Dbh.mk_row 0 (mkdt 2023 7 4 12 0) (Some 100%Q));
   ("S1", Dbh.mk_row 1 (mkdt 2023 7 4 12 15) None);
   ("S1", Dbh.mk_row 2 (mkdt 2023 7 4 12 45) (Some 125%Q));
   ("S1", Dbh.mk_row 3 (mkdt 2023 7 5 12 30) (Some 130%Q))].

(** ** Vocabulary of the further properties *)

(** The instant daylight time ends in year [y]: 06:00 UTC on the first
    Sunday of November, the bound [us_eastern_2007] uses. *)
Definition fall_back (y : Z) : Z := sunday_on_or_after y 11 1 * 1440 + 6 * 60.

(** The check behind the repeated hour: the day daylight time ends lies in
    year [y], after the start of daylight time, and the two hours around
    the change lie inside the window of the zone table. *)
Definition fall_back_ok (y : Z) : bool :=
  let '(y', _, _) := civil_from_days (sunday_on_or_after y 11 1) in
  (y' =? y) && (sunday_on_or_after y 3 8 * 1440 + 7 * 60 <? fall_back y - 60)
  && (window_lo <=? fall_back y - 60) && (fall_back y + 60 <=? window_hi).

(** One day of the window: its calendar date exists. *)
Definition day_valid (d : Z) : bool :=
  let '(y, m, d') := civil_from_days d in
  (1 <=? m) && (m <=? 12) && (1 <=? d') && (d' <=? days_in_month y m).

(** The text has no underscore. *)
Fixpoint no_underscore (s : string) : bool :=
  match s with
  | EmptyString => true
  | String a r => negb (Ascii.eqb a "_") && no_underscore r
  end.

(** The text is a bare name, as [os.walk] and [os.listdir] give them: it
    has no path separator. *)
Fixpoint bare_name (s : string) : bool :=
  match s with
  | EmptyString => true
  | String a r => negb (Ascii.eqb a "/") && bare_name r
  end.

(** Two aggregates agree: both missing, or equal as numbers. *)
Definition same_value (a b : option Q) : Prop :=
  match a, b with
  | Some x, Some y => (x == y)%Q
  | None, None => True
  | _, _ => False
  end.

(** Two rows of a climate summary agree. *)
Definition same_summary (a b : climate_daily) : Prop :=
  cd_Date a = cd_Date b ∧ Rows a = Rows b ∧
  same_value (T1_Min a) (T1_Min b) ∧ same_value (T1_Max a) (T1_Max b) ∧
  same_value (T2_Min a) (T2_Min b) ∧ same_value (T2_Max a) (T2_Max b) ∧
  same_value (T3_Min a) (T3_Min b) ∧ same_value (T3_Max a) (T3_Max b) ∧
  same_value (Soil_Min a) (Soil_Min b) ∧ same_value (Soil_Max a) (Soil_Max b) ∧
  same_value (Shake_Max a) (Shake_Max b).

(** The data lines of [in_order_file] with their converted Timestamps. *)
Definition in_order_converted : list (Dbh.row Dbh.cell) :=
  [Dbh.mk_row 0 (mkdt 2023 7 4 12 0) (Dbh.Num 100);
   Dbh.mk_row 1 (mkdt 2023 7 4 12 15) (Dbh.Num 500);
   Dbh.mk_row 2 (mkdt 2023 7 4 12 30) (Dbh.Num 8890);
   Dbh.mk_row 3 (mkdt 2023 7 4 12 45) (Dbh.Num 50);
   Dbh.mk_row 4 (mkdt 2023 7 4 13 0) (Dbh.Num 300)].

(** The record has a Timestamp that parses to a time. *)
Definition has_time (to_datetime : string → result (option datetime))
    (r : Climate.record) : bool :=
  match to_datetime (Climate.Timestamp r) with
  | Ok (Some _) => true
  | _ => false
  end.

(** A whole run: the two sample folders, the second metadata file missing. *)
Definition sample_world : world :=
  mk_world climate_folder dbh_folder true false.

(** * Properties *)

(** ** Sorting *)

Lemma omap_ext_in {A B} (f g : A → option B) (l : list A) :
  (∀ x, x ∈ l → f x = g x) → omap f l = omap g l.
Proof.
  induction l as [|x l IH]; intros H; [done|]. csimpl.
  rewrite (H x) by left. rewrite IH; [done|]. intros y Hy. apply H. by right.
Qed.

Lemma take_rows_seq {A} (df : list A) : take_rows (seq 0 (length df)) df = df.
Proof.
  unfold take_rows. induction df as [|x df IH] using rev_ind; [done|].
  rewrite length_app, seq_app, omap_app. simpl.
  rewrite lookup_app_r by lia. rewrite Nat.sub_diag. simpl. f_equal.
  rewrite <- IH at 2. apply omap_ext_in.
  intros i Hi. apply elem_of_seq in Hi. by rewrite lookup_app_l by lia.
Qed.

Lemma take_rows_perm {A} (indexer : list nat) (df : list A) :
  indexer ≡ₚ seq 0 (length df) → take_rows indexer df ≡ₚ df.
Proof.
  intros H. unfold take_rows. rewrite H. fold (take_rows (seq 0 (length df)) df).
  by rewrite take_rows_seq.
Qed.

Lemma take_rows_subseteq {A} (indexer : list nat) (df : list A) x :
  x ∈ take_rows indexer df → x ∈ df.
Proof.
  unfold take_rows. rewrite list_elem_of_omap. intros (i & _ & Hi).
  by eapply list_elem_of_lookup_2.
Qed.

Lemma insert_index_perm b ks i l : insert_index b ks i l ≡ₚ i :: l.
Proof.
  induction l as [|j l IH]; simpl; [done|].
  destruct (goes_before b ks i j); [done|]. by rewrite IH, Permutation_swap.
Qed.

Lemma insertion_argsort_perm b ks :
  insertion_argsort b ks ≡ₚ seq 0 (length ks).
Proof.
  unfold insertion_argsort. induction (seq 0 (length ks)) as [|i l IH]; simpl; [done|].
  by rewrite insert_index_perm, IH.
Qed.

Lemma insert_index_sorted b ks i l :
  Sorted (key_le ks) l → Sorted (key_le ks) (insert_index b ks i l).
Proof.
  induction 1 as [|j l Hl IH Hhd]; simpl; [by repeat constructor|].
  destruct (goes_before b ks i j) eqn:E.
  - constructor; [by constructor|]. constructor.
    unfold key_le, goes_before in *. destruct b; lia.
  - constructor; [done|].
    assert (key_le ks j i) by (unfold key_le, goes_before in *; destruct b; lia).
    destruct Hhd as [|k l' Hk]; simpl; [by constructor|].
    destruct (goes_before b ks i k); by constructor.
Qed.

Lemma insertion_argsort_sorted b ks :
  Sorted (key_le ks) (insertion_argsort b ks).
Proof.
  unfold insertion_argsort. induction (seq 0 (length ks)) as [|i l IH]; simpl.
  - constructor.
  - by apply insert_index_sorted.
Qed.

(** On positions inside the column, looking the key up and [key_at]
    agree. *)
Lemma omap_keys ks (l : list nat) :
  Forall (λ i, (i < length ks)%nat) l →
  omap (λ i, ks !! i) l = key_at ks <$> l.
Proof.
  induction 1 as [|i l Hi _ IH]; csimpl; [done|].
  destruct (lookup_lt_is_Some_2 ks i Hi) as [k Hk].
  unfold key_at at 1. rewrite Hk. simpl. by f_equal.
Qed.

Lemma perm_seq_bound (l : list nat) n :
  l ≡ₚ seq 0 n → Forall (λ i, (i < n)%nat) l.
Proof.
  intros H. apply Forall_forall. intros i Hi. rewrite H in Hi.
  apply elem_of_seq in Hi. lia.
Qed.

Lemma sorted_fmap_inv {A B} (f : A → B) (R : relation B) l :
  Sorted R (f <$> l) → Sorted (λ x y, R (f x) (f y)) l.
Proof.
  induction l as [|x l IH]; simpl; [constructor|].
  inversion_clear 1 as [|?? Hs Hd]. constructor; [by apply IH|].
  destruct l; simpl in *; [constructor|]. inversion_clear Hd. by constructor.
Qed.

Lemma sort_contract_insertion b : sort_contract (insertion_argsort b).
Proof.
  intros ks. split; [apply insertion_argsort_perm|].
  rewrite omap_keys by apply perm_seq_bound, insertion_argsort_perm.
  eapply Sorted_fmap, insertion_argsort_sorted. done.
Qed.

(** With distinct keys the contract leaves one answer only. *)
Lemma argsort_unique argsort ks :
  sort_contract argsort → NoDup ks → argsort ks = stable_argsort ks.
Proof.
  intros Hc Hnd. unfold stable_argsort. destruct (Hc ks) as [Hp Hs].
  pose proof (perm_seq_bound _ _ Hp) as Hb.
  rewrite omap_keys in Hs by done. apply sorted_fmap_inv in Hs.
  assert (Transitive (key_le ks)) by (intros ???; unfold key_le; lia).
  eapply (Sorted_unique_strong (key_le ks)).
  - intros i j Hi Hj Hij Hji.
    assert (key_at ks i = key_at ks j) as E by (unfold key_le in *; lia).
    rewrite Forall_forall in Hb. apply Hb in Hi.
    assert (j < length ks)%nat as Hj'.
    { pose proof (perm_seq_bound _ _ (insertion_argsort_perm false ks)) as Hb'.
      rewrite Forall_forall in Hb'. by apply Hb'. }
    destruct (lookup_lt_is_Some_2 ks i Hi) as [a Ha].
    destruct (lookup_lt_is_Some_2 ks j Hj') as [c Hc'].
    unfold key_at in E. rewrite Ha, Hc' in E. simpl in E. subst c.
    eapply NoDup_lookup; eauto.
  - exact Hs.
  - apply insertion_argsort_sorted.
  - by rewrite Hp, insertion_argsort_perm.
Qed.

(** ** Calendar arithmetic inside the window of the zone table *)

Lemma forallb_seqZ (P : Z → bool) lo n :
  forallb P (seqZ lo n) = true → ∀ x, lo ≤ x < lo + n → P x = true.
Proof.
  intros H x Hx. rewrite forallb_forall in H. apply H.
  apply list_elem_of_In, elem_of_seqZ. lia.
Qed.

Lemma window_days_ok d : 13513 ≤ d < 24837 → day_ok d = true.
Proof.
  intros H. apply (forallb_seqZ day_ok 13513 11324); [|lia].
  vm_compute. reflexivity.
Qed.

Lemma window_bounds : window_lo = 13514 * 1440 ∧ window_hi = 24837 * 1440.
Proof. split; vm_compute; reflexivity. Qed.

Lemma us_eastern_2007_cases t :
  us_eastern_2007 t = -240 ∨ us_eastern_2007 t = -300.
Proof.
  unfold us_eastern_2007. destruct (civil_from_days _) as [[y m] d].
  destruct (_ && _); auto.
Qed.

Lemma of_minutes_window t :
  13513 * 1440 ≤ t < 24837 * 1440 →
  to_minutes (of_minutes t) = t ∧ 2006 ≤ year (of_minutes t) ≤ 2038.
Proof.
  intros Ht. assert (13513 ≤ t / 1440 < 24837) as Hd by (Z.div_mod_to_equations; lia).
  pose proof (window_days_ok _ Hd) as Hok.
  unfold day_ok, of_minutes, to_minutes in *.
  destruct (civil_from_days (t / 1440)) as [[y m] d]. simpl.
  apply andb_prop in Hok as [Hok Hy2]. apply andb_prop in Hok as [Hrt Hy1].
  apply Z.eqb_eq in Hrt. rewrite Hrt. Z.div_mod_to_equations. lia.
Qed.

(** ** The fixed layout YYYY.MM.DD HH:MM *)












(** ** C3: the normalizer *)


(** ** Exceptions and frames *)

Lemma apply_rows_ext {A B} (f g : A → result B) (l : list A) :
  (∀ x, x ∈ l → f x = g x) → apply_rows f l = apply_rows g l.
Proof.
  induction l as [|x l IH]; intros H; [done|]. simpl.
  rewrite (H x) by left. rewrite IH; [done|]. intros y Hy. apply H. by right.
Qed.

Lemma apply_rows_ok {A B} (f : A → result B) (l : list A) ys :
  apply_rows f l = Ok ys → Forall2 (λ x y, f x = Ok y) l ys.
Proof.
  revert ys. induction l as [|x l IH]; simpl; intros ys H.
  - injection H as <-. constructor.
  - destruct (f x) as [y|] eqn:E; [|done]. simpl in H.
    destruct (apply_rows f l) as [ys'|]; [|done]. simpl in H.
    injection H as <-. constructor; auto.
Qed.

Lemma apply_rows_raise {A B} (f : A → result B) (l : list A) x e :
  x ∈ l → f x = Raise e → ∃ e', apply_rows f l = Raise e'.
Proof.
  intros Hx Hf. induction Hx as [x l|x y l Hx IH]; simpl.
  - rewrite Hf. by exists e.
  - destruct (f y) as [v|e1]; simpl; [|by exists e1].
    destruct (IH Hf) as [e2 ->]. by exists e2.
Qed.

(** ** DBH: the frame before the rollover step *)

Lemma converted_lookup utcoffset raw df i r :
  Dbh.converted utcoffset raw = Ok df → df !! i = Some r →
  ∃ x, drop Dbh.start_row raw !! i = Some x ∧ Dbh.label r = i ∧
       Dbh.Size r = Dbh.raw_Size x ∧
       convert_to_eastern utcoffset (Dbh.raw_Timestamp x) = Ok (Dbh.Timestamp r).
Proof.
  unfold Dbh.converted. intros H Hi.
  destruct (apply_rows _ _) as [ts|] eqn:E; [|done]. simpl in H.
  injection H as <-. apply apply_rows_ok in E.
  rewrite lookup_zip_with in Hi.
  destruct (seq 0 _ !! i) as [j|] eqn:Ej; [|done]. simpl in Hi.
  apply lookup_seq in Ej as [-> _].
  rewrite lookup_zip_with in Hi.
  destruct (ts !! i) as [t|] eqn:Et; [|done]. simpl in Hi.
  destruct (drop _ raw !! i) as [x|] eqn:Ex; [|done]. simpl in Hi.
  injection Hi as <-. exists x. simpl. repeat split; try done.
  rewrite Forall2_lookup in E. specialize (E i).
  rewrite list_lookup_fmap, Ex, Et in E. simpl in E. by inversion E.
Qed.

Lemma sort_values_elem argsort (df : list (Dbh.row Dbh.cell)) r :
  r ∈ Dbh.sort_values argsort df → r ∈ df.
Proof. apply take_rows_subseteq. Qed.

Lemma as_number_to_numeric c : Dbh.as_number c = Dbh.to_numeric c.
Proof. by destruct c. Qed.

Lemma coerce_size_to_numeric numeric df :
  Dbh.coerce_size numeric df =
  (λ r, Dbh.mk_row (Dbh.label r) (Dbh.Timestamp r) (Dbh.to_numeric (Dbh.Size r))) <$> df.
Proof.
  unfold Dbh.coerce_size. destruct numeric; [|done].
  apply list_fmap_ext. intros _ r _. by rewrite as_number_to_numeric.
Qed.

(** ** C2: no rollover value, no change *)

Lemma rollover_correction_none df :
  (∀ r, r ∈ df → Dbh.is_rollover r = false) → Dbh.rollover_correction df = Ok df.
Proof.
  intros H. unfold Dbh.rollover_correction, Dbh.rollover_points.
  replace (List.filter Dbh.is_rollover df) with (@nil (Dbh.row (option Q))); [done|].
  symmetry. induction df as [|r df IH]; [done|]. simpl.
  rewrite (H r) by left. apply IH. intros r' Hr'. apply H. by right.
Qed.

(** C2.  When no Size of the file equals 8890 after the numeric coercion,
    the rollover step returns the frame it was given, and so the file's
    result is the sorted, coerced frame with every Size as it was read. *)
Theorem rollover_noop (utcoffset : Z → Z) (argsort : list Z → list nat)
    (raw : list Dbh.raw_row) :
  (∀ r q, r ∈ drop Dbh.start_row raw → Dbh.to_numeric (Dbh.raw_Size r) = Some q →
          Qeq_bool q Dbh.baseline = false) →
  (∀ df, Dbh.converted utcoffset raw = Ok df →
     let sorted := Dbh.coerce_size (Dbh.is_numeric_dtype (Dbh.raw_Size <$> raw))
                     (Dbh.sort_values argsort df) in
     Dbh.rollover_correction sorted = Ok sorted ∧
     Dbh.compute_dbh_df utcoffset argsort raw = Ok sorted) ∧
  (∀ e, Dbh.converted utcoffset raw = Raise e →
     Dbh.compute_dbh_df utcoffset argsort raw = Raise e).
Proof.
  intros Hno. split.
  - intros df Hdf sorted.
    assert (Dbh.rollover_correction sorted = Ok sorted) as Hroll.
    { apply rollover_correction_none. intros r Hr. subst sorted.
      rewrite coerce_size_to_numeric in Hr. apply list_elem_of_fmap in Hr as (r0 & -> & Hr0).
      apply sort_values_elem, list_elem_of_lookup in Hr0 as [i Hi].
      destruct (converted_lookup _ _ _ _ _ Hdf Hi) as (x & Hx & _ & Hs & _).
      unfold Dbh.is_rollover. simpl. rewrite Hs.
      destruct (Dbh.to_numeric (Dbh.raw_Size x)) as [q|] eqn:Eq; [|done].
      eapply Hno; [|done]. by eapply list_elem_of_lookup_2. }
    split; [done|]. unfold Dbh.compute_dbh_df. rewrite Hdf. simpl. exact Hroll.
  - intros e He. unfold Dbh.compute_dbh_df. by rewrite He.
Qed.

(** ** C1: the rollover step slices by label *)

Lemma convert_in_window utcoffset s :
  zone_table_ok utcoffset → in_window s = true →
  convert_to_eastern utcoffset s = convert_to_eastern us_eastern_2007 s.
Proof.
  unfold in_window, convert_to_eastern. intros Hz Hw.
  destruct (strptime s) as [dt|]; [|done]. rewrite Hz; [done|lia].
Qed.

Lemma converted_canonical utcoffset raw :
  zone_table_ok utcoffset →
  forallb in_window (Dbh.raw_Timestamp <$> drop Dbh.start_row raw) = true →
  Dbh.converted utcoffset raw = Dbh.converted us_eastern_2007 raw.
Proof.
  intros Hz Hw. unfold Dbh.converted.
  rewrite (apply_rows_ext (convert_to_eastern utcoffset)
             (convert_to_eastern us_eastern_2007)); [done|].
  intros s Hs. apply convert_in_window; [done|].
  rewrite forallb_forall in Hw. by apply Hw, list_elem_of_In.
Qed.

(** Whatever the zone table outside the window and whatever the sort does
    with equal keys: a file with timestamps inside the window that stay
    distinct after the conversion has one result. *)
Lemma compute_dbh_df_canonical utcoffset argsort raw df :
  zone_table_ok utcoffset → sort_contract argsort →
  forallb in_window (Dbh.raw_Timestamp <$> drop Dbh.start_row raw) = true →
  Dbh.converted us_eastern_2007 raw = Ok df →
  NoDup ((λ r, to_minutes (Dbh.Timestamp r)) <$> df) →
  Dbh.compute_dbh_df utcoffset argsort raw =
  Dbh.compute_dbh_df us_eastern_2007 stable_argsort raw.
Proof.
  intros Hz Hc Hw Hdf Hnd. unfold Dbh.compute_dbh_df.
  rewrite (converted_canonical utcoffset) by done. rewrite Hdf. simpl.
  unfold Dbh.sort_values. by rewrite (argsort_unique argsort) by done.
Qed.

(** C1, at a file the code can receive.  Sorted by converted Timestamp the
    Sizes are 20, 30, 100, 8890: the rollover value is the last row, no
    row follows it, nothing should change.  The code looks up the label
    after the rollover row's label, finds it at the head of the sorted
    frame and adds 8890 to every row, the rollover row included. *)
Theorem rollover_after_fall_back (utcoffset : Z → Z) (argsort : list Z → list nat) :
  zone_table_ok utcoffset → sort_contract argsort →
  Dbh.compute_dbh_df utcoffset argsort fall_back_file =
  Ok [Dbh.mk_row 2 (mkdt 2023 11 5 1 0) (Some 8910%Q);
      Dbh.mk_row 3 (mkdt 2023 11 5 1 15) (Some 8920%Q);
      Dbh.mk_row 0 (mkdt 2023 11 5 1 30) (Some 8990%Q);
      Dbh.mk_row 1 (mkdt 2023 11 5 1 45) (Some 17780%Q)].
Proof.
  intros Hz Hc.
  transitivity (Dbh.compute_dbh_df us_eastern_2007 stable_argsort fall_back_file).
  - eapply compute_dbh_df_canonical; [done|done|..].
    + vm_compute. reflexivity.
    + vm_compute. reflexivity.
    + apply (bool_decide_unpack _). vm_compute. reflexivity.
  - vm_compute. reflexivity.
Qed.

Lemma rollover_key_error utcoffset argsort :
  zone_table_ok utcoffset → sort_contract argsort →
  Dbh.compute_dbh_df utcoffset argsort unordered_file = Raise KeyError.
Proof.
  intros Hz Hc.
  transitivity (Dbh.compute_dbh_df us_eastern_2007 stable_argsort unordered_file).
  - eapply compute_dbh_df_canonical; [done|done|..].
    + vm_compute. reflexivity.
    + vm_compute. reflexivity.
    + apply (bool_decide_unpack _). vm_compute. reflexivity.
  - vm_compute. reflexivity.
Qed.

(** When the sorted frame still carries the labels 0, 1, 2, ... in order
    (the file was in time order and the sort moved nothing), the label
    slice is the positional slice: 8890 is added after the last rollover
    row and nowhere else. *)
Lemma get_loc_seq s n k :
  Dbh.get_loc (seq s n) k =
  if bool_decide (s ≤ k < s + n)%nat then Some (k - s)%nat else None.
Proof.
  revert s. induction n as [|n IH]; intros s; simpl.
  - case_bool_decide; [lia|done].
  - destruct (s =? k)%nat eqn:E.
    + apply Nat.eqb_eq in E. subst. rewrite bool_decide_eq_true_2 by lia.
      by rewrite Nat.sub_diag.
    + apply Nat.eqb_neq in E. rewrite IH.
      repeat case_bool_decide; try lia; simpl; [|done]. f_equal. lia.
Qed.

Lemma is_monotonic_increasing_seq s n :
  Dbh.is_monotonic_increasing (seq s n) = true.
Proof.
  unfold Dbh.is_monotonic_increasing. revert s.
  induction n as [|n IH]; intros s; [done|].
  specialize (IH (S s)). destruct n as [|n]; [done|].
  change (Dbh.is_monotonic Nat.leb (seq s (S (S n)))) with
    ((s <=? S s)%nat && Dbh.is_monotonic Nat.leb (seq (S s) (S n))).
  rewrite IH, andb_true_r. apply Nat.leb_le. lia.
Qed.

Lemma count_if_lt_seq s n m :
  (s + n ≤ m)%nat → Dbh.count_if (λ l, l <? m)%nat (seq s n) = n.
Proof.
  unfold Dbh.count_if. revert s. induction n as [|n IH]; intros s H; [done|].
  simpl. destruct (s <? m)%nat eqn:E; [|apply Nat.ltb_ge in E; lia].
  simpl. rewrite IH; [done|lia].
Qed.

Lemma last_rollover_label df k :
  last (Dbh.rollover_points df) = Some k → k ∈ Dbh.label <$> df.
Proof.
  intros H. apply last_Some_elem_of in H. unfold Dbh.rollover_points in H.
  apply list_elem_of_fmap in H as (r & -> & Hr).
  apply list_elem_of_fmap. exists r. split; [done|].
  apply list_elem_of_In in Hr. apply filter_In in Hr as [Hr _].
  by apply list_elem_of_In.
Qed.

Lemma rollover_correction_in_order df k :
  Dbh.label <$> df = seq 0 (length df) →
  last (Dbh.rollover_points df) = Some k →
  Dbh.rollover_correction df =
  Ok (take (S k) df ++ (Dbh.add_baseline <$> drop (S k) df)).
Proof.
  intros Hl Hk. pose proof (last_rollover_label _ _ Hk) as Hin.
  rewrite Hl in Hin. apply elem_of_seq in Hin.
  unfold Dbh.rollover_correction. rewrite Hk.
  unfold Dbh.loc_add_baseline, Dbh.get_slice_bound_left. rewrite Hl, get_loc_seq.
  replace (k + 1)%nat with (S k) by lia.
  case_bool_decide as Hc; simpl.
  - done.
  - assert (S k = length df) as Hn by lia.
    unfold Dbh.searchsorted_monotonic_left.
    rewrite is_monotonic_increasing_seq, count_if_lt_seq by lia. simpl.
    by rewrite Hn.
Qed.

Lemma rollover_in_order_example utcoffset argsort :
  zone_table_ok utcoffset → sort_contract argsort →
  Dbh.compute_dbh_df utcoffset argsort in_order_file =
  Ok [Dbh.mk_row 0 (mkdt 2023 7 4 12 0) (Some 100%Q);
      Dbh.mk_row 1 (mkdt 2023 7 4 12 15) (Some 500%Q);
      Dbh.mk_row 2 (mkdt 2023 7 4 12 30) (Some 8890%Q);
      Dbh.mk_row 3 (mkdt 2023 7 4 12 45) (Some 8940%Q);
      Dbh.mk_row 4 (mkdt 2023 7 4 13 0) (Some 9190%Q)].
Proof.
  intros Hz Hc.
  transitivity (Dbh.compute_dbh_df us_eastern_2007 stable_argsort in_order_file).
  - eapply compute_dbh_df_canonical; [done|done|..].
    + vm_compute. reflexivity.
    + vm_compute. reflexivity.
    + apply (bool_decide_unpack _). vm_compute. reflexivity.
  - vm_compute. reflexivity.
Qed.

(** ** Aggregates *)

Lemma present_cons_Some x col : present (Some x :: col) = x :: present col.
Proof. done. Qed.
Lemma present_cons_None col : present (None :: col) = present col.
Proof. done. Qed.

Lemma Qle_bool_false x y : Qle_bool x y = false → (y <= x)%Q.
Proof.
  intros H. apply Qlt_le_weak, Qnot_le_lt. intros Hle.
  apply Qle_bool_iff in Hle. congruence.
Qed.

Lemma nanmin_spec col : least_of (present col) (nanmin col).
Proof.
  unfold nanmin. induction col as [|[x|] col IH].
  - simpl. intros x. apply not_elem_of_nil.
  - cbn [agg]. rewrite present_cons_Some. destruct (agg qmin col) as [y|]; simpl in *.
    + destruct IH as [Hy Hmin]. unfold qmin. destruct (Qle_bool x y) eqn:E.
      * split; [left|]. intros z [->|Hz]%elem_of_cons; [apply Qle_refl|].
        eapply Qle_trans; [by apply Qle_bool_iff|by apply Hmin].
      * split; [by right|]. intros z [->|Hz]%elem_of_cons; [|by apply Hmin].
        by apply Qle_bool_false.
    + split; [left|]. intros z [->|Hz]%elem_of_cons; [apply Qle_refl|].
      by apply IH in Hz.
  - cbn [agg]. by rewrite present_cons_None.
Qed.

Lemma nanmax_spec col : greatest_of (present col) (nanmax col).
Proof.
  unfold nanmax. induction col as [|[x|] col IH].
  - simpl. intros x. apply not_elem_of_nil.
  - cbn [agg]. rewrite present_cons_Some. destruct (agg qmax col) as [y|]; simpl in *.
    + destruct IH as [Hy Hmax]. unfold qmax. destruct (Qle_bool x y) eqn:E.
      * split; [by right|]. intros z [->|Hz]%elem_of_cons; [|by apply Hmax].
        by apply Qle_bool_iff.
      * split; [left|]. intros z [->|Hz]%elem_of_cons; [apply Qle_refl|].
        eapply Qle_trans; [by apply Hmax|by apply Qle_bool_false].
    + split; [left|]. intros z [->|Hz]%elem_of_cons; [apply Qle_refl|].
      by apply IH in Hz.
  - cbn [agg]. by rewrite present_cons_None.
Qed.

(** Missing values take no part: the aggregate of a column is the
    aggregate of its present values. *)
Lemma agg_present op col : agg op col = agg op (Some <$> present col).
Proof.
  induction col as [|[x|] col IH]; [done| |done].
  rewrite present_cons_Some. cbn [agg fmap list_fmap]. by rewrite IH.
Qed.




(** ** groupby *)

Section GroupByFacts.
Context {K R : Type} (kcmp : K → K → comparison) (key : R → option K).
Hypothesis kcmp_eq : ∀ a b, kcmp a b = Eq ↔ a = b.

Lemma insert_key_elem k k0 ks : k ∈ insert_key kcmp k0 ks ↔ k = k0 ∨ k ∈ ks.
Proof.
  induction ks as [|k' ks IH]; simpl.
  - rewrite list_elem_of_singleton, elem_of_nil. tauto.
  - destruct (kcmp k0 k') eqn:E.
    + apply kcmp_eq in E as ->. rewrite !elem_of_cons. tauto.
    + rewrite !elem_of_cons. tauto.
    + rewrite !elem_of_cons, IH. tauto.
Qed.

Lemma group_keys_elem k df :
  k ∈ group_keys kcmp key df ↔ ∃ r, r ∈ df ∧ key r = Some k.
Proof.
  unfold group_keys. rewrite <- (list_elem_of_omap key df k).
  induction (omap key df) as [|k0 ks IH]; simpl.
  - done.
  - rewrite insert_key_elem, IH, elem_of_cons. tauto.
Qed.

Lemma has_key_true k r : has_key kcmp key k r = true ↔ key r = Some k.
Proof.
  unfold has_key. destruct (key r) as [k'|]; [|done].
  destruct (kcmp k k') eqn:E.
  - apply kcmp_eq in E as ->. tauto.
  - split; [done|]. intros [= ->]. assert (kcmp k k = Eq) by by apply kcmp_eq. congruence.
  - split; [done|]. intros [= ->]. assert (kcmp k k = Eq) by by apply kcmp_eq. congruence.
Qed.

Lemma group_elem k df r : r ∈ group kcmp key k df ↔ r ∈ df ∧ key r = Some k.
Proof.
  unfold group. rewrite list_elem_of_In, filter_In, <- list_elem_of_In.
  by rewrite has_key_true.
Qed.

Lemma groupby_elem k g df :
  (k, g) ∈ groupby kcmp key df ↔
  (∃ r, r ∈ df ∧ key r = Some k) ∧ g = group kcmp key k df.
Proof.
  unfold groupby. rewrite list_elem_of_fmap, <- group_keys_elem. split.
  - intros (k' & [= -> ->] & Hk). done.
  - intros [Hk ->]. by exists k.
Qed.
End GroupByFacts.

Lemma filter_perm {A} (f : A → bool) (l l' : list A) :
  l ≡ₚ l' → List.filter f l ≡ₚ List.filter f l'.
Proof.
  induction 1 as [|x l l' _ IH|x y l|l l' l'' _ IH1 _ IH2]; simpl.
  - done.
  - destruct (f x); by rewrite IH.
  - destruct (f x), (f y); try done. apply Permutation_swap.
  - by rewrite IH1.
Qed.

(** ** Climate: the sorted frame is a rearrangement of the parsed frame *)

Lemma filter_seq_lookup {A} (p : option A → bool) (l : list A) :
  length (List.filter (λ i, p (l !! i)) (seq 0 (length l))) =
  length (List.filter (λ x, p (Some x)) l).
Proof.
  induction l as [|x l IH] using rev_ind; [done|].
  rewrite length_app, seq_app, !List.filter_app, !length_app. simpl.
  rewrite lookup_app_r by lia. rewrite Nat.sub_diag. simpl. f_equal.
  - rewrite <- IH. f_equal. apply filter_ext_in. intros i Hi.
    apply in_seq in Hi. by rewrite lookup_app_l by lia.
  - by destruct (p (Some x)).
Qed.

Lemma length_omap_id {A} (l : list (option A)) :
  length (omap id l) = length (List.filter (λ x, bool_decide (is_Some x)) l).
Proof.
  induction l as [|[x|] l IH]; [done| |]; csimpl; by rewrite IH.
Qed.

Lemma filter_partition {A} (f g : A → bool) (l : list A) :
  (∀ x, g x = negb (f x)) → List.filter f l ++ List.filter g l ≡ₚ l.
Proof.
  intros H. induction l as [|x l IH]; [done|]. simpl. rewrite H.
  destruct (f x); simpl.
  - by rewrite IH.
  - by rewrite <- Permutation_middle, IH.
Qed.

Lemma nargsort_perm argsort keys :
  sort_contract argsort → Climate.nargsort argsort keys ≡ₚ seq 0 (length keys).
Proof.
  intros Hc. unfold Climate.nargsort.
  rewrite take_rows_perm.
  - apply filter_partition. intros i. by destruct (mjoin (keys !! i)).
  - destruct (Hc (omap id keys)) as [Hp _]. rewrite Hp.
    pose proof (filter_seq_lookup (λ o, bool_decide (is_Some (mjoin o))) keys) as E.
    simpl in E. rewrite E. by rewrite length_omap_id.
Qed.

Lemma climate_sort_values_perm argsort (df : list (option datetime * Climate.record)) :
  sort_contract argsort → Climate.sort_values argsort df ≡ₚ df.
Proof.
  intros Hc. unfold Climate.sort_values. apply take_rows_perm.
  rewrite nargsort_perm by done. by rewrite length_fmap.
Qed.

Lemma Z_compare_eq (a b : Z) : Z.compare a b = Eq ↔ a = b.
Proof. apply Z.compare_eq_iff. Qed.

(** The parsed frame pairs every record with its parsed Timestamp. *)
Lemma parsed_rows to_datetime df pdf :
  Climate.parsed to_datetime df = Ok pdf →
  Forall2 (λ r p, p.2 = r ∧ to_datetime (Climate.Timestamp r) = Ok p.1) df pdf.
Proof.
  unfold Climate.parsed. intros H.
  destruct (apply_rows _ _) as [ts|] eqn:E; [|done]. simpl in H. injection H as <-.
  apply apply_rows_ok in E. rewrite Forall2_fmap_l in E.
  induction E as [|r t df ts Hr _ IH]; simpl; constructor; auto.
Qed.

(** ** C5: the Rows count *)

Lemma parsed_falls_on to_datetime df pdf d :
  Climate.parsed to_datetime df = Ok pdf →
  length (List.filter (has_key Z.compare Climate.Date d) pdf) =
  length (List.filter (falls_on to_datetime d) df).
Proof.
  intros H. apply parsed_rows in H.
  induction H as [|r p df pdf [_ Hr] _ IH]; [done|]. simpl.
  unfold falls_on at 1, has_key at 1, Climate.Date at 1. rewrite Hr.
  destruct p.1 as [dt|]; simpl; [|done].
  rewrite Z.compare_antisym.
  destruct (date_of dt =? d) eqn:E.
  - apply Z.eqb_eq in E. rewrite E, Z.compare_refl. simpl. by rewrite IH.
  - apply Z.eqb_neq in E. destruct (date_of dt ?= d) eqn:E'; simpl; try done.
    by apply Z.compare_eq_iff in E'.
Qed.

Section GroupKeysSorted.
Context {K R : Type} (kcmp : K → K → comparison) (key : R → option K).
Hypothesis kcmp_eq : ∀ a b, kcmp a b = Eq ↔ a = b.
Hypothesis kcmp_trans : ∀ a b c, kcmp a b = Lt → kcmp b c = Lt → kcmp a c = Lt.
Hypothesis kcmp_gt : ∀ a b, kcmp a b = Gt → kcmp b a = Lt.

Lemma insert_key_sorted k ks :
  StronglySorted (key_lt kcmp) ks → StronglySorted (key_lt kcmp) (insert_key kcmp k ks).
Proof.
  induction 1 as [|k' ks Hs IH Hall]; simpl; [by repeat constructor|].
  destruct (kcmp k k') eqn:E.
  - by constructor.
  - constructor; [by constructor|]. constructor; [done|].
    eapply Forall_impl; [exact Hall|]. intros c Hc. by eapply kcmp_trans.
  - constructor; [done|]. apply Forall_forall. intros c Hc.
    apply (insert_key_elem kcmp kcmp_eq) in Hc as [->|Hc].
    + by apply kcmp_gt.
    + rewrite Forall_forall in Hall. by apply Hall.
Qed.

Lemma group_keys_sorted df : StronglySorted (key_lt kcmp) (group_keys kcmp key df).
Proof.
  unfold group_keys. induction (omap key df) as [|k ks IH]; simpl.
  - constructor.
  - by apply insert_key_sorted.
Qed.

Lemma group_keys_NoDup df : NoDup (group_keys kcmp key df).
Proof.
  induction (group_keys_sorted df) as [|k ks _ IH Hall]; constructor; [|done].
  intros Hk. rewrite Forall_forall in Hall. specialize (Hall _ Hk).
  unfold key_lt in Hall. assert (kcmp k k = Eq) by by apply kcmp_eq. congruence.
Qed.
End GroupKeysSorted.

Lemma filter_all {A} (f : A → bool) (l : list A) :
  (∀ x, x ∈ l → f x = true) → List.filter f l = l.
Proof.
  induction l as [|x l IH]; intros H; [done|]. simpl.
  rewrite (H x) by left. f_equal. apply IH. intros y Hy. apply H. by right.
Qed.

Lemma grouped_elem argsort pdf row :
  sort_contract argsort →
  row ∈ Climate.grouped argsort pdf →
  ∃ d, (∃ p, p ∈ pdf ∧ Climate.Date p = Some d) ∧
       row = Climate.summary_of_group
               (d, group Z.compare Climate.Date d (Climate.sort_values argsort pdf)).
Proof.
  intros Hc. unfold Climate.grouped. rewrite list_elem_of_fmap.
  intros ([d g] & -> & Hg). apply (groupby_elem _ _ Z_compare_eq) in Hg as [(p & Hp & Hd) ->].
  exists d. split; [|done]. exists p. split; [|done].
  by rewrite <- (climate_sort_values_perm argsort pdf Hc).
Qed.

(** C5.  For every climate file that parses and every calendar date in it,
    the daily summary has one row for the date and its Rows field is the
    number of records of the file whose Timestamp falls on that date; the
    measurement fields play no part. *)
Theorem rows_count_exact (to_datetime : string → result (option datetime))
    (argsort : list Z → list nat) (df : list Climate.record)
    (pdf : list (option datetime * Climate.record)) :
  sort_contract argsort →
  Climate.parsed to_datetime df = Ok pdf →
  (∀ row, row ∈ Climate.grouped argsort pdf →
     Rows row = length (List.filter (falls_on to_datetime (cd_Date row)) df)) ∧
  (∀ d, (∃ r, r ∈ df ∧ falls_on to_datetime d r = true) →
     ∃ row, row ∈ Climate.grouped argsort pdf ∧ cd_Date row = d) ∧
  NoDup (cd_Date <$> Climate.grouped argsort pdf).
Proof.
  intros Hc Hp. split; [|split].
  - intros row Hrow. apply grouped_elem in Hrow as (d & _ & ->); [|done]. simpl.
    unfold Climate.count. rewrite filter_all.
    + unfold group. rewrite (filter_perm _ _ pdf) by by apply climate_sort_values_perm.
      by apply parsed_falls_on.
    + intros p Hin. apply (group_elem _ _ Z_compare_eq) in Hin as [_ Hd].
      unfold Climate.Date in Hd. by destruct p.1.
  - intros d (r & Hr & Hd). apply parsed_rows in Hp.
    apply list_elem_of_lookup in Hr as [i Hi].
    destruct (Forall2_lookup_l _ _ _ _ _ Hp Hi) as (p & Hpi & _ & Hts).
    exists (Climate.summary_of_group
              (d, group Z.compare Climate.Date d (Climate.sort_values argsort pdf))).
    split; [|done]. unfold Climate.grouped. apply list_elem_of_fmap.
    eexists. split; [done|]. apply (groupby_elem _ _ Z_compare_eq). split; [|done].
    exists p. split.
    + rewrite (climate_sort_values_perm argsort pdf Hc). by eapply list_elem_of_lookup_2.
    + unfold falls_on in Hd. rewrite Hts in Hd. unfold Climate.Date.
      destruct p.1 as [dt|]; [|done]. apply Z.eqb_eq in Hd. by rewrite <- Hd.
  - assert (cd_Date <$> Climate.grouped argsort pdf =
            group_keys Z.compare Climate.Date (Climate.sort_values argsort pdf)) as ->.
    { unfold Climate.grouped, groupby. rewrite <- !list_fmap_compose.
      generalize (group_keys Z.compare Climate.Date (Climate.sort_values argsort pdf)).
      intros ks. induction ks as [|k ks IH]; simpl; [done|by f_equal]. }
    apply group_keys_NoDup.
    + apply Z_compare_eq.
    + intros a b c. rewrite !Z.compare_lt_iff. lia.
    + intros a b. rewrite Z.compare_gt_iff, Z.compare_lt_iff. lia.
Qed.

(** ** C6: missing values and the aggregates *)

Lemma present_elem col x : x ∈ present col ↔ Some x ∈ col.
Proof.
  unfold present. rewrite list_elem_of_omap. split.
  - intros (o & Ho & Hx). simpl in Hx. by subst.
  - intros H. by exists (Some x).
Qed.

Lemma channel_perm {A} (f : A → option Q) (g : A → bool) l l' x :
  l ≡ₚ l' →
  x ∈ present (f <$> List.filter g l) ↔ x ∈ present (f <$> List.filter g l').
Proof. intros H. unfold present. by rewrite (filter_perm g l l' H). Qed.

Lemma string_compare_refl s : String.compare s s = Eq.
Proof.
  pose proof (String.compare_antisym s s) as H.
  by destruct (String.compare s s).
Qed.

Lemma key_compare_eq a b : Dbh.key_compare a b = Eq ↔ a = b.
Proof.
  destruct a as [s d], b as [s' d']. unfold Dbh.key_compare. simpl. split.
  - destruct (String.compare s s') eqn:E; try done.
    apply String.compare_eq_iff in E as ->. by intros ->%Z.compare_eq_iff.
  - intros [= -> ->]. by rewrite string_compare_refl, Z.compare_refl.
Qed.



(** ** DBH: what the rollover step can do to a row *)

Lemma Forall2_kept (l : list (Dbh.row (option Q))) : Forall2 kept_or_raised l l.
Proof. induction l; constructor; [by repeat split; try left|done]. Qed.

Lemma Forall2_raised (l : list (Dbh.row (option Q))) :
  Forall2 kept_or_raised l (Dbh.add_baseline <$> l).
Proof. induction l; constructor; [by repeat split; try right|done]. Qed.

Lemma rollover_correction_rows df df' :
  Dbh.rollover_correction df = Ok df' → Forall2 kept_or_raised df df'.
Proof.
  unfold Dbh.rollover_correction, Dbh.loc_add_baseline.
  destruct (last _) as [k|]; [|intros [= <-]; apply Forall2_kept].
  destruct (Dbh.get_slice_bound_left _ _) as [p|]; [|done]. simpl.
  intros [= <-]. rewrite <- (take_drop p df) at 1.
  apply Forall2_app; [apply Forall2_kept|apply Forall2_raised].
Qed.

Lemma converted_length utcoffset raw df :
  Dbh.converted utcoffset raw = Ok df → length df = length (drop Dbh.start_row raw).
Proof.
  unfold Dbh.converted. intros H.
  destruct (apply_rows _ _) as [ts|] eqn:E; [|done]. simpl in H. injection H as <-.
  apply apply_rows_ok, Forall2_length in E. rewrite length_fmap in E.
  rewrite length_zip_with, length_seq, length_zip. lia.
Qed.

Lemma converted_labels utcoffset raw df :
  Dbh.converted utcoffset raw = Ok df → Dbh.label <$> df = seq 0 (length df).
Proof.
  intros H. apply list_eq. intros i. rewrite list_lookup_fmap.
  destruct (df !! i) as [r|] eqn:E; simpl.
  - destruct (converted_lookup _ _ _ _ _ H E) as (_ & _ & -> & _).
    symmetry. apply lookup_seq. split; [done|]. by eapply lookup_lt_Some.
  - symmetry. apply lookup_ge_None. rewrite length_seq. by apply lookup_ge_None.
Qed.

(** Every row of the result is a data row of the file, found under its
    label, with the Size read from it and then kept or raised. *)
Lemma compute_dbh_df_rows utcoffset argsort raw df r :
  Dbh.compute_dbh_df utcoffset argsort raw = Ok df → r ∈ df →
  ∃ x, drop Dbh.start_row raw !! Dbh.label r = Some x ∧
       (Dbh.Size r = Dbh.to_numeric (Dbh.raw_Size x) ∨
        Dbh.Size r = lift2 Qplus (Dbh.to_numeric (Dbh.raw_Size x)) (Some Dbh.baseline)).
Proof.
  unfold Dbh.compute_dbh_df. destruct (Dbh.converted _ _) as [df0|] eqn:E0; [|done].
  simpl. intros H Hr. apply rollover_correction_rows in H.
  apply list_elem_of_lookup in Hr as [i Hi].
  destruct (Forall2_lookup_r _ _ _ _ _ H Hi) as (r1 & Hr1 & Hl & _ & Hs).
  rewrite coerce_size_to_numeric, list_lookup_fmap in Hr1.
  destruct (Dbh.sort_values argsort df0 !! i) as [r0|] eqn:E1; [|done].
  simpl in Hr1. injection Hr1 as <-. simpl in *.
  apply list_elem_of_lookup_2, sort_values_elem, list_elem_of_lookup in E1 as [j Hj].
  destruct (converted_lookup _ _ _ _ _ E0 Hj) as (x & Hx & Hlj & Hsz & _).
  exists x. rewrite Hl, Hlj, <- Hsz. done.
Qed.

Lemma Forall2_fmap_eq {A B C} (f : A → C) (g : B → C) (l : list A) (l' : list B) :
  Forall2 (λ x y, g y = f x) l l' → g <$> l' = f <$> l.
Proof. induction 1 as [|x y l l' E _ IH]; csimpl; [done|]. by rewrite E, IH. Qed.

(** With a sort that meets its contract every data row of the file is in
    the result, once. *)
Lemma compute_dbh_df_labels utcoffset argsort raw df :
  sort_contract argsort →
  Dbh.compute_dbh_df utcoffset argsort raw = Ok df →
  Dbh.label <$> df ≡ₚ seq 0 (length (drop Dbh.start_row raw)).
Proof.
  intros Hc. unfold Dbh.compute_dbh_df.
  destruct (Dbh.converted _ _) as [df0|] eqn:E0; [|done]. simpl. intros H.
  apply rollover_correction_rows in H.
  assert (Dbh.label <$> df = Dbh.label <$> Dbh.sort_values argsort df0) as ->.
  { rewrite coerce_size_to_numeric in H. rewrite Forall2_fmap_l in H.
    apply Forall2_fmap_eq. eapply Forall2_impl; [exact H|].
    by intros r0 r (Hl & _). }
  unfold Dbh.sort_values. rewrite take_rows_perm.
  - rewrite (converted_labels _ _ _ E0). by rewrite (converted_length _ _ _ E0).
  - destruct (Hc ((λ r, to_minutes (Dbh.Timestamp r)) <$> df0)) as [Hp _].
    by rewrite length_fmap in Hp.
Qed.

(** ** C9: a missing Size stays missing *)

Lemma present_drop_missing (col1 col2 : list (option Q)) :
  present (col1 ++ None :: col2) = present (col1 ++ col2).
Proof. unfold present. by rewrite !omap_app. Qed.

Lemma agg_drop_missing op (col1 col2 : list (option Q)) :
  agg op (col1 ++ None :: col2) = agg op (col1 ++ col2).
Proof.
  rewrite (agg_present op (col1 ++ None :: col2)), (agg_present op (col1 ++ col2)).
  by rewrite present_drop_missing.
Qed.

(** C9.  A data row whose Size token is not numeric is in the result with
    a missing Size: the coercion makes it missing, the rollover step leaves
    a missing Size missing, and a row with a missing Size can be taken out
    of its group without changing Min_Size or Max_Size. *)
Theorem missing_size_stays_missing (utcoffset : Z → Z)
    (argsort : list Z → list nat) (raw : list Dbh.raw_row)
    (df : list (Dbh.row (option Q))) :
  sort_contract argsort →
  Dbh.compute_dbh_df utcoffset argsort raw = Ok df →
  (∀ i x s, drop Dbh.start_row raw !! i = Some x → Dbh.raw_Size x = Dbh.Text s →
     (∃ r, r ∈ df ∧ Dbh.label r = i) ∧
     (∀ r, r ∈ df → Dbh.label r = i → Dbh.Size r = None)) ∧
  (∀ numeric r s, Dbh.Size r = Dbh.Text s →
     Dbh.Size <$> Dbh.coerce_size numeric [r] = [None]) ∧
  (∀ r, Dbh.Size r = None → Dbh.Size (Dbh.add_baseline r) = None) ∧
  (∀ k g1 g2 r, Dbh.Size r.2 = None →
     Min_Size (Dbh.daily_of_group (k, g1 ++ r :: g2)) =
       Min_Size (Dbh.daily_of_group (k, g1 ++ g2)) ∧
     Max_Size (Dbh.daily_of_group (k, g1 ++ r :: g2)) =
       Max_Size (Dbh.daily_of_group (k, g1 ++ g2))).
Proof.
  intros Hc Hdf. split; [|split; [|split]].
  - intros i x s Hx Hs. split.
    + pose proof (compute_dbh_df_labels _ _ _ _ Hc Hdf) as Hp.
      assert (i ∈ Dbh.label <$> df) as Hi.
      { rewrite Hp. apply elem_of_seq. apply lookup_lt_Some in Hx. lia. }
      apply list_elem_of_fmap in Hi as (r & -> & Hr). by exists r.
    + intros r Hr <-.
      destruct (compute_dbh_df_rows _ _ _ _ _ Hdf Hr) as (x' & Hx' & Hsz).
      rewrite Hx in Hx'. injection Hx' as <-. rewrite Hs in Hsz.
      by destruct Hsz as [-> | ->].
  - intros numeric r s Hs. unfold Dbh.coerce_size. simpl. rewrite Hs.
    by destruct numeric.
  - intros r Hr. unfold Dbh.add_baseline. simpl. by rewrite Hr.
  - intros k g1 g2 r Hr. unfold Dbh.daily_of_group. simpl.
    rewrite !fmap_app, fmap_cons, Hr. unfold nanmin, nanmax.
    by rewrite !agg_drop_missing.
Qed.

(** ** C7: growth *)



(** ** C8: a timestamp that is rejected *)







(** ** C4: the order after sorting *)











(** ** C10: one output path per station id *)

Lemma string_app_length a b :
  String.length (a +:+ b) = (String.length a + String.length b)%nat.
Proof. induction a as [|c a IH]; simpl; [done|]. by rewrite IH. Qed.

Lemma string_app_inj_l p a b : p +:+ a = p +:+ b → a = b.
Proof. induction p as [|c p IH]; simpl; [done|]. intros [= H]. by apply IH. Qed.

Lemma string_app_inj_r s a b : a +:+ s = b +:+ s → a = b.
Proof.
  revert b. induction a as [|c a IH]; intros [|c' b] H; simpl in *.
  - done.
  - apply (f_equal String.length) in H. simpl in H. rewrite !string_app_length in H.
    simpl in H. lia.
  - apply (f_equal String.length) in H. simpl in H. rewrite !string_app_length in H.
    simpl in H. lia.
  - injection H as -> H. f_equal. by apply IH.
Qed.

Lemma dest_path_inj dest s1 s2 :
  Climate.dest_path dest s1 = Climate.dest_path dest s2 → s1 = s2.
Proof.
  unfold Climate.dest_path, path_join.
  destruct (_ || _); intros H.
  - by apply string_app_inj_l, string_app_inj_r in H.
  - by apply string_app_inj_l, string_app_inj_l, string_app_inj_r in H.
Qed.

Lemma summarize_folder_holds_last to_datetime argsort dest path folder fs fs' :
  Climate.summarize_folder to_datetime argsort folder dest fs = (Ok (), fs') →
  holds_last to_datetime argsort dest path folder fs fs'.
Proof.
  unfold holds_last, Climate.summarize_folder. revert fs.
  induction folder as [|[file df] folder IH]; intros fs; simpl.
  { unfold ret. by intros [= <-]. }
  unfold sbind at 1. unfold writes_to at 1. simpl.
  destruct (ends_with ".csv" file) eqn:Ecsv; simpl.
  - unfold Climate.daily_summary, sbind, lift, to_csv.
    destruct (Climate.parsed to_datetime df) as [pdf|e] eqn:Ep; [|done].
    intros H. specialize (IH _ H).
    destruct (String.eqb_spec (Climate.dest_path dest (station_of file)) path) as [<-|Hne].
    + rewrite last_cons. destruct (last _) as [[file' df']|]; [done|].
      exists pdf. split; [done|]. by rewrite IH, lookup_insert_eq.
    + destruct (last _) as [[file' df']|]; [done|].
      by rewrite IH, lookup_insert_ne.
  - unfold ret at 1. intros H. by apply IH.
Qed.

Lemma filter_none {A} (f : A → bool) (l : list A) :
  (∀ x, x ∈ l → f x = false) → List.filter f l = [].
Proof.
  induction l as [|x l IH]; intros H; [done|]. simpl.
  rewrite (H x) by left. apply IH. intros y Hy. apply H. by right.
Qed.

(** C10.  After a run of the climate stage that went through, every output
    path holds the summary of the last file that was written to it.  The
    path is a function of the station id, and of nothing else, so two files
    with the same leading token share one path and the one processed later
    is the one whose summary remains. *)
Theorem station_collision_overwrites
    (to_datetime : string → result (option datetime))
    (argsort : list Z → list nat)
    (folder : list (string * list Climate.record)) (dest : string)
    (fs fs' : gmap string table) :
  Climate.summarize_folder to_datetime argsort folder dest fs = (Ok (), fs') →
  (∀ path, holds_last to_datetime argsort dest path folder fs fs') ∧
  (∀ s1 s2, Climate.dest_path dest s1 = Climate.dest_path dest s2 ↔ s1 = s2) ∧
  (∀ pre file1 df1 mid file2 df2 post,
     folder = pre ++ (file1, df1) :: mid ++ (file2, df2) :: post →
     ends_with ".csv" file1 = true → ends_with ".csv" file2 = true →
     station_of file1 = station_of file2 →
     (∀ f, f ∈ post → ends_with ".csv" f.1 = true →
           station_of f.1 ≠ station_of file2) →
     ∃ pdf2, Climate.parsed to_datetime df2 = Ok pdf2 ∧
             fs' !! Climate.dest_path dest (station_of file1) =
               Some (ClimateTable (Climate.grouped argsort pdf2))).
Proof.
  intros Hrun. split; [|split].
  - intros path. by apply summarize_folder_holds_last.
  - intros s1 s2. split; [apply dest_path_inj|by intros ->].
  - intros pre file1 df1 mid file2 df2 post -> Hc1 Hc2 Hst Hpost.
    pose proof (summarize_folder_holds_last _ _ _
                  (Climate.dest_path dest (station_of file1)) _ _ _ Hrun) as H.
    unfold holds_last in H.
    replace (pre ++ (file1, df1) :: mid ++ (file2, df2) :: post)
      with ((pre ++ (file1, df1) :: mid) ++ [(file2, df2)] ++ post) in H
      by (by rewrite <- !app_assoc).
    rewrite !List.filter_app in H.
    replace (List.filter _ post) with (@nil (string * list Climate.record)) in H.
    + assert (List.filter (writes_to dest (Climate.dest_path dest (station_of file1)))
                [(file2, df2)] = [(file2, df2)]) as Hone.
      { cbn [List.filter]. unfold writes_to. cbn [fst].
        by rewrite Hc2, Hst, String.eqb_refl. }
      rewrite Hone, app_nil_r in H. by rewrite last_snoc in H.
    + symmetry. apply filter_none. intros f Hf. unfold writes_to.
      destruct (ends_with ".csv" f.1) eqn:Ef; [|done]. simpl.
      apply String.eqb_neq. intros E. apply dest_path_inj in E. rewrite Hst in E.
      by destruct (Hpost f Hf Ef).
Qed.

(** * The properties at concrete inputs *)

Lemma us_eastern_2007_table_ok : zone_table_ok us_eastern_2007.
Proof. intros t _. reflexivity. Qed.

Lemma rollover_noop_witness :
  Dbh.compute_dbh_df us_eastern_2007 stable_argsort noisy_file =
  Ok [Dbh.mk_row 0 (mkdt 2023 7 4 12 0) (Some 100%Q);
      Dbh.mk_row 1 (mkdt 2023 7 4 12 15) None;
      Dbh.mk_row 2 (mkdt 2023 7 4 12 45) (Some 125%Q);
      Dbh.mk_row 3 (mkdt 2023 7 5 12 30) (Some 130%Q)].
Proof.
  refine (proj2 (proj1 (rollover_noop us_eastern_2007 stable_argsort noisy_file _)
                   [Dbh.mk_row 0 (mkdt 2023 7 4 12 0) (Dbh.Num 100);
                    Dbh.mk_row 1 (mkdt 2023 7 4 12 15) (Dbh.Text "ERR");
                    Dbh.mk_row 2 (mkdt 2023 7 4 12 45) (Dbh.Num 125);
                    Dbh.mk_row 3 (mkdt 2023 7 5 12 30) (Dbh.Num 130)] _)).
  - intros r q Hr Hq. simpl in Hr.
    repeat (apply elem_of_cons in Hr as [->|Hr]); simpl in Hq; simplify_eq; try reflexivity.
    by apply elem_of_nil in Hr.
  - vm_compute. reflexivity.
Defined.


Lemma rollover_after_fall_back_witness :
  Dbh.compute_dbh_df us_eastern_2007 stable_argsort fall_back_file =
  Ok [Dbh.mk_row 2 (mkdt 2023 11 5 1 0) (Some 8910%Q);
      Dbh.mk_row 3 (mkdt 2023 11 5 1 15) (Some 8920%Q);
      Dbh.mk_row 0 (mkdt 2023 11 5 1 30) (Some 8990%Q);
      Dbh.mk_row 1 (mkdt 2023 11 5 1 45) (Some 17780%Q)].
Proof.
  apply (rollover_after_fall_back us_eastern_2007 stable_argsort).
  - exact us_eastern_2007_table_ok.
  - apply sort_contract_insertion.
Defined.


Lemma rows_count_exact_witness :
  Climate.parsed sample_to_datetime station_a_march = Ok station_a_march_parsed ∧
  (∀ row, row ∈ Climate.grouped stable_argsort station_a_march_parsed →
     Rows row =
       length (List.filter (falls_on sample_to_datetime (cd_Date row)) station_a_march)).
Proof.
  split; [reflexivity|].
  refine (proj1 (rows_count_exact sample_to_datetime stable_argsort station_a_march
                   station_a_march_parsed _ _)).
  - apply sort_contract_insertion.
  - reflexivity.
Defined.




Lemma missing_size_stays_missing_witness :
  (∃ r, r ∈ [Dbh.mk_row 0 (mkdt 2023 7 4 12 0) (Some 100%Q);
             Dbh.mk_row 1 (mkdt 2023 7 4 12 15) None;
             Dbh.mk_row 2 (mkdt 2023 7 4 12 45) (Some 125%Q);
             Dbh.mk_row 3 (mkdt 2023 7 5 12 30) (Some 130%Q)] ∧ Dbh.label r = 1%nat) ∧
  (∀ r, r ∈ [Dbh.mk_row 0 (mkdt 2023 7 4 12 0) (Some 100%Q);
             Dbh.mk_row 1 (mkdt 2023 7 4 12 15) None;
             Dbh.mk_row 2 (mkdt 2023 7 4 12 45) (Some 125%Q);
             Dbh.mk_row 3 (mkdt 2023 7 5 12 30) (Some 130%Q)] →
        Dbh.label r = 1%nat → Dbh.Size r = None).
Proof.
  refine (proj1 (missing_size_stays_missing us_eastern_2007 stable_argsort noisy_file _ _ _)
            1%nat (Dbh.mk_raw "2023.07.04 16:15" (Dbh.Text "ERR")) "ERR" _ _).
  - apply sort_contract_insertion.
  - vm_compute. reflexivity.
  - reflexivity.
  - reflexivity.
Defined.

Lemma station_collision_overwrites_witness :
  ∃ fs',
    Climate.summarize_folder sample_to_datetime stable_argsort climate_folder
      SUMMARIES_FOLDER ∅ = (Ok (), fs') ∧
    ∃ pdf2, Climate.parsed sample_to_datetime station_a_april = Ok pdf2 ∧
            fs' !! Climate.dest_path SUMMARIES_FOLDER (station_of "A_march.csv") =
              Some (ClimateTable (Climate.grouped stable_argsort pdf2)).
Proof.
  eexists. split; [vm_compute; reflexivity|].
  refine (proj2 (proj2 (station_collision_overwrites sample_to_datetime stable_argsort
                          climate_folder SUMMARIES_FOLDER ∅ _ _))
            [] "A_march.csv" station_a_march [("notes.txt", [])]
            "A_april.csv" station_a_april [] _ _ _ _ _).
  - vm_compute. reflexivity.
  - reflexivity.
  - reflexivity.
  - reflexivity.
  - reflexivity.
  - intros f Hf. by apply elem_of_nil in Hf.
Defined.

(** * Further properties of the code *)

(** * Further properties of the code *)

(** ** What [strptime] accepts *)

Lemma is_digit_range c : is_digit c = true → 0 ≤ digit c ≤ 9.
Proof.
  unfold is_digit, digit. intros [H1 H2]%andb_prop.
  apply Nat.leb_le in H1, H2. lia.
Qed.

Lemma cls_range lo hi c : cls lo hi c = true → lo ≤ digit c ≤ hi.
Proof. unfold cls. intros [[_ H1]%andb_prop H2]%andb_prop. lia. Qed.

Lemma re_Y_range s Y r : re_Y s = Some (Y, r) → 0 ≤ Y ≤ 9999.
Proof.
  unfold re_Y. destruct s as [|a [|b [|c [|d s]]]]; try done.
  destruct (is_digit a) eqn:Ea, (is_digit b) eqn:Eb, (is_digit c) eqn:Ec,
    (is_digit d) eqn:Ed; simpl; try done.
  intros [= <- _]. apply is_digit_range in Ea, Eb, Ec, Ed. lia.
Qed.

Lemma re_field_cases two one s v r :
  re_field two one s = Some (v, r) →
  (∃ a b, two a b = true ∧ v = 10 * digit a + digit b) ∨
  (∃ a, one a = true ∧ v = digit a).
Proof.
  unfold re_field. destruct s as [|a [|b s]]; [done| |].
  - destruct (one a) eqn:E; [|done]. intros [= <- _]. right. eauto.
  - destruct (two a b) eqn:E2.
    + intros [= <- _]. left. eauto.
    + destruct (one a) eqn:E; [|done]. intros [= <- _]. right. eauto.
Qed.

Lemma re_m_range s v r : re_m s = Some (v, r) → 1 ≤ v ≤ 12.
Proof.
  intros [(a & b & H & ->)|(a & H & ->)]%re_field_cases.
  - apply orb_prop in H as [[H1 H2]%andb_prop|[H1 H2]%andb_prop];
      apply cls_range in H1, H2; lia.
  - apply cls_range in H. lia.
Qed.

Lemma re_d_range s v r : re_d s = Some (v, r) → 1 ≤ v ≤ 31.
Proof.
  unfold re_d. destruct (re_field _ _ s) as [[v' r']|] eqn:E.
  - intros [= <- _]. apply re_field_cases in E as [(a & b & H & ->)|(a & H & ->)].
    + apply orb_prop in H as [H|[H1 H2]%andb_prop].
      * apply orb_prop in H as [[H1 H2]%andb_prop|[H1 H2]%andb_prop].
        -- apply cls_range in H1, H2. lia.
        -- apply cls_range in H1. apply is_digit_range in H2. lia.
      * apply cls_range in H1, H2. lia.
    + apply cls_range in H. lia.
  - destruct s as [|a [|b s]]; try done.
    destruct (_ && _) eqn:H; [|done]. intros [= <- _].
    apply andb_prop in H as [_ H]. apply cls_range in H. lia.
Qed.

Lemma re_H_range s v r : re_H s = Some (v, r) → 0 ≤ v ≤ 23.
Proof.
  intros [(a & b & H & ->)|(a & H & ->)]%re_field_cases.
  - apply orb_prop in H as [[H1 H2]%andb_prop|[H1 H2]%andb_prop].
    + apply cls_range in H1, H2. lia.
    + apply cls_range in H1. apply is_digit_range in H2. lia.
  - apply is_digit_range in H. lia.
Qed.

Lemma re_M_range s v r : re_M s = Some (v, r) → 0 ≤ v ≤ 59.
Proof.
  intros [(a & b & [H1 H2]%andb_prop & ->)|(a & H & ->)]%re_field_cases.
  - apply cls_range in H1. apply is_digit_range in H2. lia.
  - apply is_digit_range in H. lia.
Qed.

(** X1.  Whatever text [strptime] accepts, the date-time it returns
    exists: year 1..9999, month 1..12, a day of that month (leap years
    included), hour 0..23, minute 0..59. *)
Theorem strptime_sound (s : string) (dt : datetime) :
  strptime s = Some dt → valid_datetime dt.
Proof.
  unfold strptime. intros H.
  destruct (re_Y s) as [[Y s1]|] eqn:EY; simpl in H; [|done].
  destruct (lit "." s1) as [s2|]; simpl in H; [|done].
  destruct (re_m s2) as [[m s3]|] eqn:Em; simpl in H; [|done].
  destruct (lit "." s3) as [s4|]; simpl in H; [|done].
  destruct (re_d s4) as [[d s5]|] eqn:Ed; simpl in H; [|done].
  destruct (re_spaces s5) as [s6|]; simpl in H; [|done].
  destruct (re_H s6) as [[h s7]|] eqn:Eh; simpl in H; [|done].
  destruct (lit ":" s7) as [s8|]; simpl in H; [|done].
  destruct (re_M s8) as [[mi s9]|] eqn:EM; simpl in H; [|done].
  destruct s9; [|done].
  destruct (1 <=? Y) eqn:E1; simpl in H; [|done].
  destruct (d <=? days_in_month Y m) eqn:E2; [|done].
  injection H as <-. unfold valid_datetime. simpl.
  apply re_Y_range in EY. apply re_m_range in Em. apply re_d_range in Ed.
  apply re_H_range in Eh. apply re_M_range in EM. lia.
Qed.

Lemma strptime_sound_witness :
  strptime "2024.2.29 7:05" = Some (mkdt 2024 2 29 7 5) ∧
  valid_datetime (mkdt 2024 2 29 7 5).
Proof.
  split; [reflexivity|]. apply (strptime_sound "2024.2.29 7:05"). reflexivity.
Defined.

(** ** The normalizer inside the window of the zone table *)

Lemma convert_to_eastern_window utcoffset s dt :
  zone_table_ok utcoffset → strptime s = Some dt →
  window_lo ≤ to_minutes dt < window_hi →
  convert_to_eastern utcoffset s =
  Ok (of_minutes (to_minutes dt + us_eastern_2007 (to_minutes dt))).
Proof.
  intros Hz Hs Hw. unfold convert_to_eastern. rewrite Hs. cbv beta iota zeta.
  rewrite (Hz _ Hw).
  pose proof (us_eastern_2007_cases (to_minutes dt)) as Hoff.
  destruct window_bounds as [Hlo Hhi]. rewrite Hlo, Hhi in Hw.
  destruct (of_minutes_window (to_minutes dt + us_eastern_2007 (to_minutes dt)))
    as [_ Hy]; [lia|].
  destruct (1 <=? _) eqn:E1; [|lia]. destruct (_ <=? 9999) eqn:E2; [|lia]. done.
Qed.

Lemma local_minutes t :
  window_lo ≤ t < window_hi →
  to_minutes (of_minutes (t + us_eastern_2007 t)) = t + us_eastern_2007 t.
Proof.
  intros Hw. pose proof (us_eastern_2007_cases t) as Hoff.
  destruct window_bounds as [Hlo Hhi]. rewrite Hlo, Hhi in Hw.
  apply of_minutes_window. lia.
Qed.

(** X2.  Two timestamps at least an hour apart keep their order through
    the conversion: the local time of the earlier one is not after the
    local time of the later one. *)
Theorem convert_keeps_hourly_order (utcoffset : Z → Z) (s1 s2 : string)
    (dt1 dt2 : datetime) :
  zone_table_ok utcoffset →
  strptime s1 = Some dt1 → strptime s2 = Some dt2 →
  window_lo ≤ to_minutes dt1 < window_hi →
  window_lo ≤ to_minutes dt2 < window_hi →
  to_minutes dt1 + 60 ≤ to_minutes dt2 →
  ∃ l1 l2, convert_to_eastern utcoffset s1 = Ok l1 ∧
           convert_to_eastern utcoffset s2 = Ok l2 ∧
           to_minutes l1 ≤ to_minutes l2.
Proof.
  intros Hz H1 H2 Hw1 Hw2 Hle.
  exists (of_minutes (to_minutes dt1 + us_eastern_2007 (to_minutes dt1))),
         (of_minutes (to_minutes dt2 + us_eastern_2007 (to_minutes dt2))).
  split; [by apply convert_to_eastern_window|].
  split; [by apply convert_to_eastern_window|].
  rewrite !local_minutes by done.
  pose proof (us_eastern_2007_cases (to_minutes dt1)).
  pose proof (us_eastern_2007_cases (to_minutes dt2)). lia.
Qed.

Lemma convert_keeps_hourly_order_witness :
  ∃ l1 l2, convert_to_eastern us_eastern_2007 "2023.11.05 05:30" = Ok l1 ∧
           convert_to_eastern us_eastern_2007 "2023.11.05 06:30" = Ok l2 ∧
           to_minutes l1 ≤ to_minutes l2.
Proof.
  apply (convert_keeps_hourly_order us_eastern_2007 _ _
           (mkdt 2023 11 5 5 30) (mkdt 2023 11 5 6 30)).
  - exact us_eastern_2007_table_ok.
  - reflexivity.
  - reflexivity.
  - vm_compute. split; [discriminate|reflexivity].
  - vm_compute. split; [discriminate|reflexivity].
  - vm_compute. discriminate.
Defined.

Lemma fall_back_years y : 2007 ≤ y ≤ 2037 → fall_back_ok y = true.
Proof.
  intros H. apply (forallb_seqZ fall_back_ok 2007 31); [vm_compute; reflexivity|lia].
Qed.

Lemma fall_back_offsets y k :
  2007 ≤ y ≤ 2037 → 0 ≤ k < 60 →
  us_eastern_2007 (fall_back y - 60 + k) = -240 ∧
  us_eastern_2007 (fall_back y + k) = -300.
Proof.
  intros Hy Hk. pose proof (fall_back_years y Hy) as Hok.
  unfold fall_back_ok in Hok. unfold us_eastern_2007.
  assert ((fall_back y - 60 + k) / 1440 = sunday_on_or_after y 11 1) as ->.
  { unfold fall_back. Z.div_mod_to_equations. lia. }
  assert ((fall_back y + k) / 1440 = sunday_on_or_after y 11 1) as ->.
  { unfold fall_back. Z.div_mod_to_equations. lia. }
  destruct (civil_from_days (sunday_on_or_after y 11 1)) as [[y' m'] d'].
  apply andb_prop in Hok as [[[->%Z.eqb_eq Hlt]%andb_prop _]%andb_prop _].
  apply Z.ltb_lt in Hlt.
  fold (fall_back y). split.
  - destruct (_ && _) eqn:E; [done|]. apply andb_false_iff in E as [E|E]; lia.
  - destruct (_ && _) eqn:E; [|done]. apply andb_prop in E as [_ E]. lia.
Qed.

(** X3.  Every year the hour before daylight time ends is repeated: a
    timestamp in the last hour before 06:00 UTC on the first Sunday of
    November and the timestamp sixty minutes later convert to the same
    local time.  The converted Timestamp does not identify the reading. *)
Theorem fall_back_hour_repeats (utcoffset : Z → Z) (y k : Z) (s1 s2 : string)
    (dt1 dt2 : datetime) :
  zone_table_ok utcoffset →
  2007 ≤ y ≤ 2037 → 0 ≤ k < 60 →
  strptime s1 = Some dt1 → strptime s2 = Some dt2 →
  to_minutes dt1 = fall_back y - 60 + k →
  to_minutes dt2 = fall_back y + k →
  window_lo ≤ to_minutes dt1 ∧ to_minutes dt2 < window_hi ∧
  ∃ l, convert_to_eastern utcoffset s1 = Ok l ∧
       convert_to_eastern utcoffset s2 = Ok l.
Proof.
  intros Hz Hy Hk H1 H2 Ht1 Ht2.
  pose proof (fall_back_years y Hy) as Hok. unfold fall_back_ok in Hok.
  destruct (civil_from_days _) as [[y' m'] d'].
  apply andb_prop in Hok as [[_ Hlo%Z.leb_le]%andb_prop Hhi%Z.leb_le].
  destruct (fall_back_offsets y k Hy Hk) as [Ho1 Ho2].
  split; [lia|]. split; [lia|].
  exists (of_minutes (to_minutes dt1 + us_eastern_2007 (to_minutes dt1))).
  split; [apply convert_to_eastern_window; [done|done|lia]|].
  rewrite (convert_to_eastern_window utcoffset s2 dt2) by (done || lia).
  rewrite Ht1, Ht2, Ho1, Ho2. do 2 f_equal. lia.
Qed.

Lemma fall_back_hour_repeats_witness :
  ∃ l, convert_to_eastern us_eastern_2007 "2023.11.05 05:30" = Ok l ∧
       convert_to_eastern us_eastern_2007 "2023.11.05 06:30" = Ok l.
Proof.
  refine (proj2 (proj2 (fall_back_hour_repeats us_eastern_2007 2023 30 _ _
                          (mkdt 2023 11 5 5 30) (mkdt 2023 11 5 6 30)
                          us_eastern_2007_table_ok _ _ _ _ _ _))).
  - lia.
  - lia.
  - reflexivity.
  - reflexivity.
  - vm_compute. reflexivity.
  - vm_compute. reflexivity.
Defined.

Lemma window_days_valid d : 13513 ≤ d < 24837 → day_valid d = true.
Proof.
  intros H. apply (forallb_seqZ day_valid 13513 11324); [|lia].
  vm_compute. reflexivity.
Qed.

(** X4.  Inside the window the normalizer never fails on an accepted
    timestamp, and what it returns is again an existing date-time. *)
Theorem convert_returns_valid (utcoffset : Z → Z) (s : string) (dt : datetime) :
  zone_table_ok utcoffset → strptime s = Some dt →
  window_lo ≤ to_minutes dt < window_hi →
  ∃ local_dt, convert_to_eastern utcoffset s = Ok local_dt ∧
              valid_datetime local_dt.
Proof.
  intros Hz Hs Hw. eexists. split; [by apply convert_to_eastern_window|].
  pose proof (us_eastern_2007_cases (to_minutes dt)) as Hoff.
  set (t := to_minutes dt + us_eastern_2007 (to_minutes dt)).
  destruct window_bounds as [Hlo Hhi]. rewrite Hlo, Hhi in Hw.
  assert (13513 * 1440 ≤ t < 24837 * 1440) as Ht by (subst t; lia).
  destruct (of_minutes_window t Ht) as [_ Hy].
  assert (13513 ≤ t / 1440 < 24837) as Hd by (Z.div_mod_to_equations; lia).
  pose proof (window_days_valid _ Hd) as Hv.
  unfold day_valid, of_minutes, valid_datetime in *.
  destruct (civil_from_days (t / 1440)) as [[y m] d]. simpl in *.
  apply andb_prop in Hv as [[[H1%Z.leb_le H2%Z.leb_le]%andb_prop H3%Z.leb_le]%andb_prop
                              H4%Z.leb_le].
  repeat split; try lia; Z.div_mod_to_equations; lia.
Qed.

Lemma convert_returns_valid_witness :
  ∃ local_dt, convert_to_eastern us_eastern_2007 "2024.03.01 02:30" = Ok local_dt ∧
              valid_datetime local_dt.
Proof.
  apply (convert_returns_valid us_eastern_2007 _ (mkdt 2024 3 1 2 30)).
  - exact us_eastern_2007_table_ok.
  - reflexivity.
  - vm_compute. split; [discriminate|reflexivity].
Defined.

(** ** Station and sensor ids *)

Lemma rfind_dot_csv x : rfind "." (x +:+ ".csv") = Some (String.length x).
Proof. induction x as [|a x IH]; [done|]. simpl. by rewrite IH. Qed.

Lemma substring_prefix x y : substring 0 (String.length x) (x +:+ y) = x.
Proof.
  induction x as [|a x IH]; simpl.
  - by destruct y.
  - by rewrite IH.
Qed.

Lemma stem_csv x : x ≠ EmptyString → stem (x +:+ ".csv") = x.
Proof.
  intros Hx. unfold stem. rewrite rfind_dot_csv, string_app_length. simpl.
  destruct x as [|a x]; [done|]. simpl String.length.
  destruct (_ && _) eqn:E.
  - apply (substring_prefix (String a x) ".csv").
  - apply andb_false_iff in E as [E|E].
    + apply Nat.ltb_ge in E. lia.
    + apply Nat.ltb_ge in E. lia.
Qed.

Lemma before_underscore_prefix id rest :
  no_underscore id = true → before_underscore (id +:+ String "_" rest) = id.
Proof.
  induction id as [|a id IH]; simpl; [done|].
  intros [Ha Hid]%andb_prop. apply negb_true_iff in Ha. rewrite Ha.
  by rewrite IH.
Qed.

Lemma before_underscore_all x : no_underscore x = true → before_underscore x = x.
Proof.
  induction x as [|a x IH]; simpl; [done|].
  intros [Ha Hx]%andb_prop. apply negb_true_iff in Ha. rewrite Ha.
  by rewrite IH.
Qed.

Lemma before_underscore_clean s : no_underscore (before_underscore s) = true.
Proof.
  induction s as [|a s IH]; simpl; [done|].
  destruct (Ascii.eqb a "_") eqn:E; simpl; [done|]. by rewrite E.
Qed.

(** X5.  The id of a file, for the bare names a folder listing gives, is
    the name up to the first underscore, or the whole name without the
    .csv ending when there is no underscore; an id never holds an
    underscore. *)
Theorem station_of_csv (id : string) :
  no_underscore id = true → bare_name id = true →
  (∀ rest, bare_name rest = true →
           station_of ((id +:+ String "_" rest) +:+ ".csv") = id) ∧
  (id ≠ EmptyString → station_of (id +:+ ".csv") = id) ∧
  (∀ file, no_underscore (station_of file) = true).
Proof.
  intros Hid _. split; [|split].
  - intros rest _. unfold station_of. rewrite stem_csv.
    + by apply before_underscore_prefix.
    + by destruct id.
  - intros Hne. unfold station_of. rewrite stem_csv by done.
    by apply before_underscore_all.
  - intros file. apply before_underscore_clean.
Qed.

Lemma station_of_csv_witness :
  station_of "ABC123_2023.csv" = "ABC123" ∧ station_of "ABC123.csv" = "ABC123".
Proof.
  destruct (station_of_csv "ABC123" eq_refl eq_refl) as (H1 & H2 & _). split.
  - exact (H1 "2023" eq_refl).
  - by apply H2.
Defined.

(** ** The rollover step on a file in time order *)

Lemma last_filter_split {A} (f : A → bool) (l : list A) x :
  last (List.filter f l) = Some x →
  ∃ l1 l2, l = l1 ++ x :: l2 ∧ f x = true ∧ Forall (λ z, f z = false) l2.
Proof.
  induction l as [|y l IH] using rev_ind; [done|].
  rewrite List.filter_app. simpl. destruct (f y) eqn:E.
  - rewrite last_snoc. intros [= ->]. exists l, []. by repeat split.
  - rewrite app_nil_r. intros H. destruct (IH H) as (l1 & l2 & -> & Hx & Hl2).
    exists l1, (l2 ++ [y]). rewrite <- app_assoc. repeat split; [done|].
    apply Forall_app. split; [done|]. by constructor.
Qed.

Lemma strictly_sorted_NoDup (ks : list Z) : StronglySorted Z.lt ks → NoDup ks.
Proof.
  induction 1 as [|k ks _ IH Hall]; constructor; [|done].
  intros Hk. rewrite Forall_forall in Hall. specialize (Hall _ Hk). lia.
Qed.

Lemma strictly_sorted_le (ks : list Z) : StronglySorted Z.lt ks → Sorted Z.le ks.
Proof.
  induction 1 as [|k ks _ IH Hall]; constructor; [done|].
  destruct Hall as [|k' ks' Hk _]; constructor. lia.
Qed.

Lemma key_at_seq (ks : list Z) : key_at ks <$> seq 0 (length ks) = ks.
Proof.
  apply list_eq. intros i. rewrite list_lookup_fmap.
  destruct (ks !! i) as [k|] eqn:E.
  - rewrite (proj2 (lookup_seq 0 (length ks) i i)).
    + simpl. unfold key_at. by rewrite E.
    + split; [done|]. by eapply lookup_lt_Some.
  - rewrite (proj2 (lookup_ge_None _ _)); [done|].
    rewrite length_seq. by apply lookup_ge_None.
Qed.

(** A sort within the contract leaves a column that is already strictly
    ascending where it is. *)
Lemma argsort_in_order argsort (ks : list Z) :
  sort_contract argsort → StronglySorted Z.lt ks →
  argsort ks = seq 0 (length ks).
Proof.
  intros Hc Hs. pose proof (strictly_sorted_NoDup ks Hs) as Hnd.
  rewrite (argsort_unique argsort ks Hc Hnd).
  assert (Transitive (key_le ks)) by (intros ???; unfold key_le; lia).
  eapply (Sorted_unique_strong (key_le ks)).
  - intros i j Hi Hj Hij Hji.
    assert (key_at ks i = key_at ks j) as E by (unfold key_le in *; lia).
    pose proof (perm_seq_bound _ _ (insertion_argsort_perm false ks)) as Hb.
    rewrite Forall_forall in Hb. apply Hb in Hi. apply elem_of_seq in Hj.
    destruct (lookup_lt_is_Some_2 ks i Hi) as [a Ha].
    destruct (lookup_lt_is_Some_2 ks j) as [c Hc']; [lia|].
    unfold key_at in E. rewrite Ha, Hc' in E. simpl in E. subst c.
    eapply NoDup_lookup; eauto.
  - apply insertion_argsort_sorted.
  - apply (sorted_fmap_inv (key_at ks) Z.le). rewrite key_at_seq.
    by apply strictly_sorted_le.
  - apply insertion_argsort_perm.
Qed.

Lemma coerce_size_labels numeric df :
  Dbh.label <$> Dbh.coerce_size numeric df = Dbh.label <$> df.
Proof.
  rewrite coerce_size_to_numeric, <- list_fmap_compose. by apply list_fmap_ext.
Qed.

(** X6.  When the converted Timestamps of a file are strictly ascending in
    file order, the rollover step does what it is meant to do: with no
    Size equal to 8890 the frame is returned as it is; otherwise the frame
    splits at the last row with Size 8890, that row and the rows before it
    are kept and every row after it has 8890 added. *)
Theorem rollover_in_time_order (utcoffset : Z → Z) (argsort : list Z → list nat)
    (raw : list Dbh.raw_row) (df0 : list (Dbh.row Dbh.cell)) :
  sort_contract argsort →
  Dbh.converted utcoffset raw = Ok df0 →
  StronglySorted Z.lt ((λ r, to_minutes (Dbh.Timestamp r)) <$> df0) →
  let cdf := Dbh.coerce_size (Dbh.is_numeric_dtype (Dbh.raw_Size <$> raw)) df0 in
  (Forall (λ r, Dbh.is_rollover r = false) cdf ∧
   Dbh.compute_dbh_df utcoffset argsort raw = Ok cdf) ∨
  (∃ before r after,
     cdf = before ++ r :: after ∧ Dbh.is_rollover r = true ∧
     Forall (λ z, Dbh.is_rollover z = false) after ∧
     Dbh.compute_dbh_df utcoffset argsort raw =
       Ok (before ++ r :: (Dbh.add_baseline <$> after))).
Proof.
  intros Hc Hdf Hs cdf.
  assert (Dbh.sort_values argsort df0 = df0) as Hsort.
  { unfold Dbh.sort_values. rewrite (argsort_in_order argsort _ Hc Hs).
    rewrite length_fmap. apply take_rows_seq. }
  assert (Dbh.compute_dbh_df utcoffset argsort raw = Dbh.rollover_correction cdf) as ->.
  { unfold Dbh.compute_dbh_df. rewrite Hdf. simpl. by rewrite Hsort. }
  assert (Dbh.label <$> cdf = seq 0 (length cdf)) as Hl.
  { subst cdf. rewrite coerce_size_labels, (converted_labels _ _ _ Hdf).
    unfold Dbh.coerce_size. by rewrite length_fmap. }
  destruct (last (Dbh.rollover_points cdf)) as [k|] eqn:Ek.
  - right. rewrite (rollover_correction_in_order cdf k Hl Ek).
    unfold Dbh.rollover_points in Ek. rewrite fmap_last in Ek.
    destruct (last (List.filter Dbh.is_rollover cdf)) as [x|] eqn:Ex; [|done].
    injection Ek as Hk.
    destruct (last_filter_split _ _ _ Ex) as (l1 & l2 & E & Hx & Hl2).
    exists l1, x, l2. repeat split; try done.
    assert (k = length l1) as ->.
    { assert ((Dbh.label <$> cdf) !! length l1 = Some k) as Hlk.
      { rewrite E, list_lookup_fmap, list_lookup_middle by done. simpl. by rewrite Hk. }
      rewrite Hl in Hlk. apply lookup_seq in Hlk. lia. }
    rewrite E. f_equal.
    replace (l1 ++ x :: l2) with ((l1 ++ [x]) ++ l2) by (by rewrite <- app_assoc).
    rewrite take_app_length', drop_app_length' by (rewrite length_app; simpl; lia).
    by rewrite <- app_assoc.
  - left. split.
    + unfold Dbh.rollover_points in Ek. rewrite fmap_last in Ek.
      destruct (last (List.filter Dbh.is_rollover cdf)) as [x|] eqn:Ex; [done|].
      apply last_None in Ex. apply Forall_forall. intros r Hr.
      destruct (Dbh.is_rollover r) eqn:E; [|done].
      assert (r ∈ List.filter Dbh.is_rollover cdf) as Hin.
      { apply list_elem_of_In, filter_In. split; [by apply list_elem_of_In|done]. }
      rewrite Ex in Hin. by apply elem_of_nil in Hin.
    + unfold Dbh.rollover_correction. by rewrite Ek.
Qed.

Lemma rollover_in_time_order_witness :
  (Forall (λ r, Dbh.is_rollover r = false)
     (Dbh.coerce_size (Dbh.is_numeric_dtype (Dbh.raw_Size <$> in_order_file))
        in_order_converted) ∧
   Dbh.compute_dbh_df us_eastern_2007 stable_argsort in_order_file =
     Ok (Dbh.coerce_size (Dbh.is_numeric_dtype (Dbh.raw_Size <$> in_order_file))
           in_order_converted)) ∨
  (∃ before r after,
     Dbh.coerce_size (Dbh.is_numeric_dtype (Dbh.raw_Size <$> in_order_file))
       in_order_converted = before ++ r :: after ∧
     Dbh.is_rollover r = true ∧
     Forall (λ z, Dbh.is_rollover z = false) after ∧
     Dbh.compute_dbh_df us_eastern_2007 stable_argsort in_order_file =
       Ok (before ++ r :: (Dbh.add_baseline <$> after))).
Proof.
  apply (rollover_in_time_order us_eastern_2007 stable_argsort in_order_file
           in_order_converted).
  - apply sort_contract_insertion.
  - vm_compute. reflexivity.
  - apply (bool_decide_unpack _). vm_compute. reflexivity.
Defined.

(** ** Growth *)



(** ** The climate summary and the order of equal Timestamps *)

Lemma least_of_same vs vs' r r' :
  (∀ x, x ∈ vs ↔ x ∈ vs') → least_of vs r → least_of vs' r' → same_value r r'.
Proof.
  intros H Hr Hr'. destruct r as [m|], r' as [m'|]; simpl in *.
  - destruct Hr as [Hm Hle], Hr' as [Hm' Hle'].
    apply Qle_antisym; [by apply Hle, H|by apply Hle', H].
  - destruct Hr as [Hm _]. by apply H, Hr' in Hm.
  - destruct Hr' as [Hm _]. by apply H, Hr in Hm.
  - done.
Qed.

Lemma greatest_of_same vs vs' r r' :
  (∀ x, x ∈ vs ↔ x ∈ vs') → greatest_of vs r → greatest_of vs' r' → same_value r r'.
Proof.
  intros H Hr Hr'. destruct r as [m|], r' as [m'|]; simpl in *.
  - destruct Hr as [Hm Hle], Hr' as [Hm' Hle'].
    apply Qle_antisym; [by apply Hle', H|by apply Hle, H].
  - destruct Hr as [Hm _]. by apply H, Hr' in Hm.
  - destruct Hr' as [Hm _]. by apply H, Hr in Hm.
  - done.
Qed.

Lemma Z_compare_trans a b c :
  Z.compare a b = Lt → Z.compare b c = Lt → Z.compare a c = Lt.
Proof. rewrite !Z.compare_lt_iff. lia. Qed.

Lemma Z_compare_gt a b : Z.compare a b = Gt → Z.compare b a = Lt.
Proof. rewrite Z.compare_gt_iff, Z.compare_lt_iff. lia. Qed.

(** The keys of a frame depend on its rows, not on their order. *)
Lemma group_keys_perm {R} (key : R → option Z) (df df' : list R) :
  df ≡ₚ df' → group_keys Z.compare key df = group_keys Z.compare key df'.
Proof.
  intros Hp.
  pose proof (group_keys_sorted Z.compare key Z_compare_eq Z_compare_trans Z_compare_gt) as Hs.
  apply (StronglySorted_unique_strong (key_lt Z.compare)); [|apply Hs..|].
  - intros a b _ _. unfold key_lt. rewrite !Z.compare_lt_iff. lia.
  - apply NoDup_Permutation.
    + by apply group_keys_NoDup; [apply Z_compare_eq|apply Z_compare_trans|apply Z_compare_gt].
    + by apply group_keys_NoDup; [apply Z_compare_eq|apply Z_compare_trans|apply Z_compare_gt].
    + intros k. rewrite !(group_keys_elem _ _ Z_compare_eq).
      split; intros (r & Hr & Hk); exists r; (split; [|done]).
      * by rewrite <- Hp.
      * by rewrite Hp.
Qed.

(** X8.  The climate summary does not depend on how the sort orders equal
    Timestamps: any two sorts within the contract give the same dates in
    the same order, the same Rows, and minima and maxima that are equal as
    numbers. *)
Theorem summary_independent_of_ties (argsort1 argsort2 : list Z → list nat)
    (pdf : list (option datetime * Climate.record)) :
  sort_contract argsort1 → sort_contract argsort2 →
  Forall2 same_summary (Climate.grouped argsort1 pdf) (Climate.grouped argsort2 pdf).
Proof.
  intros H1 H2.
  pose proof (climate_sort_values_perm argsort1 pdf H1) as P1.
  pose proof (climate_sort_values_perm argsort2 pdf H2) as P2.
  unfold Climate.grouped, groupby.
  rewrite (group_keys_perm Climate.Date _ pdf P1), (group_keys_perm Climate.Date _ pdf P2).
  rewrite <- !list_fmap_compose. apply Forall2_fmap, Forall_Forall2_diag, Forall_forall.
  intros d _. simpl. unfold Climate.summary_of_group. simpl.
  assert (∀ f : Climate.record → option Q, ∀ x,
            x ∈ present ((λ p, f p.2) <$> group Z.compare Climate.Date d (Climate.sort_values argsort1 pdf)) ↔
            x ∈ present ((λ p, f p.2) <$> group Z.compare Climate.Date d (Climate.sort_values argsort2 pdf))) as Hsame.
  { intros f x. unfold group. apply channel_perm. by rewrite P1, P2. }
  unfold same_summary. simpl. split; [done|]. split.
  { unfold Climate.count, group. apply Permutation_length.
    apply filter_perm, filter_perm. by rewrite P1, P2. }
  repeat split;
    (eapply least_of_same; [apply Hsame|apply nanmin_spec..]) ||
    (eapply greatest_of_same; [apply Hsame|apply nanmax_spec..]).
Qed.

Lemma summary_independent_of_ties_witness :
  Forall2 same_summary
    (Climate.grouped stable_argsort station_a_march_parsed)
    (Climate.grouped reversing_argsort station_a_march_parsed).
Proof.
  apply (summary_independent_of_ties stable_argsort reversing_argsort);
    apply sort_contract_insertion.
Defined.

(** ** The folder loops *)

Lemma for_each_app {A} (body : A → stage ()) (l1 l2 : list A) fs :
  for_each body (l1 ++ l2) fs =
  match for_each body l1 fs with
  | (Ok _, fs1) => for_each body l2 fs1
  | (Raise e, fs1) => (Raise e, fs1)
  end.
Proof.
  revert fs. induction l1 as [|x l1 IH]; intros fs; simpl.
  - done.
  - unfold sbind. destruct (body x fs) as [[[]|e] fs0]; [apply IH|done].
Qed.

(** X9.  The climate stage stops at the first file whose Timestamp column
    does not parse: the exception leaves the stage, the summaries of the
    files before it are written and stay, the file itself and the files
    after it leave no trace. *)
Theorem summarize_folder_stops_at_failure
    (to_datetime : string → result (option datetime))
    (argsort : list Z → list nat)
    (pre post : list (string * list Climate.record))
    (file : string) (df : list Climate.record) (dest : string)
    (fs fs1 : gmap string table) (e : exn) :
  Climate.summarize_folder to_datetime argsort pre dest fs = (Ok (), fs1) →
  ends_with ".csv" file = true →
  Climate.parsed to_datetime df = Raise e →
  Climate.summarize_folder to_datetime argsort (pre ++ (file, df) :: post) dest fs =
  (Raise e, fs1).
Proof.
  unfold Climate.summarize_folder. intros Hpre Hcsv Hdf.
  rewrite for_each_app, Hpre. simpl. unfold sbind at 1. rewrite Hcsv.
  unfold Climate.daily_summary, sbind, lift. by rewrite Hdf.
Qed.

(** X10.  The DBH stage returns no table exactly when the folder holds no
    file whose name ends in .csv in any letter case, and then it writes
    nothing; a file of another name is never read. *)
Theorem process_dbh_folder_none (utcoffset : Z → Z) (argsort : list Z → list nat)
    (folder : list (string * list Dbh.raw_row)) (fs : gmap string table) :
  ((∀ f, f ∈ folder → Dbh.is_csv_any_case f.1 = false) →
   Dbh.process_dbh_folder utcoffset argsort folder fs = (Ok None, fs)) ∧
  (∀ fs', Dbh.process_dbh_folder utcoffset argsort folder fs = (Ok None, fs') →
     fs' = fs ∧ ∀ f, f ∈ folder → Dbh.is_csv_any_case f.1 = false).
Proof.
  assert (∀ dfs, Dbh.all_data utcoffset argsort folder = Ok dfs →
            (dfs = [] ↔ ∀ f, f ∈ folder → Dbh.is_csv_any_case f.1 = false)) as Hall.
  { induction folder as [|[file raw] folder IH]; simpl; intros dfs.
    - intros [= <-]. split; [|done]. intros _ f Hf. by apply elem_of_nil in Hf.
    - destruct (Dbh.is_csv_any_case file) eqn:E; simpl.
      + destruct (Dbh.compute_dbh_df _ _ raw) as [df|]; [|done]. simpl.
        destruct (Dbh.all_data _ _ folder) as [dfs'|]; [|done]. simpl.
        intros [= <-]. split; [done|]. intros H.
        specialize (H (file, raw) (list_elem_of_here _ _)). simpl in H. congruence.
      + intros H. rewrite (IH dfs H). split.
        * intros Hf f [->|Hin]%elem_of_cons; [done|by apply Hf].
        * intros Hf f Hin. apply Hf. by right. }
  split.
  - intros Hno. unfold Dbh.process_dbh_folder, sbind, lift.
    destruct (Dbh.all_data utcoffset argsort folder) as [dfs|e] eqn:E.
    + by rewrite (proj2 (Hall dfs eq_refl) Hno).
    + exfalso. clear Hall. induction folder as [|[file raw] folder IH]; [done|].
      pose proof (Hno (file, raw) (list_elem_of_here _ _)) as Hf. simpl in Hf.
      simpl in E. rewrite Hf in E. simpl in E.
      apply IH; first [done | intros f' Hf'; apply Hno; by right].
  - intros fs'. unfold Dbh.process_dbh_folder, sbind, lift, to_csv, ret.
    destruct (Dbh.all_data utcoffset argsort folder) as [dfs|e] eqn:E; [|done].
    destruct dfs as [|df dfs]; [|done]. intros [= <-]. split; [done|].
    by apply (Hall []).
Qed.

Lemma process_dbh_folder_none_witness :
  Dbh.process_dbh_folder us_eastern_2007 stable_argsort
    [("readme.md", fall_back_file); ("S1.csv.bak", [])] ∅ = (Ok None, ∅).
Proof.
  apply (proj1 (process_dbh_folder_none us_eastern_2007 stable_argsort
                  [("readme.md", fall_back_file); ("S1.csv.bak", [])] ∅)).
  intros f Hf. repeat (apply elem_of_cons in Hf as [->|Hf]); try reflexivity.
  by apply elem_of_nil in Hf.
Defined.

Lemma summarize_folder_stops_at_failure_witness :
  Climate.summarize_folder sample_to_datetime stable_argsort
    ([("A_march.csv", station_a_march)] ++
     ("B_broken.csv", [Climate.mk_record "4 July 2023" None None None None None]) ::
     [("A_april.csv", station_a_april)])
    SUMMARIES_FOLDER ∅ =
  (Raise ValueError,
   (Climate.summarize_folder sample_to_datetime stable_argsort
      [("A_march.csv", station_a_march)] SUMMARIES_FOLDER ∅).2).
Proof.
  apply (summarize_folder_stops_at_failure sample_to_datetime stable_argsort).
  - vm_compute. reflexivity.
  - reflexivity.
  - reflexivity.
Defined.

(** ** The order of the summary rows *)

Lemma ascii_compare_trans a b c :
  Ascii.compare a b = Lt → Ascii.compare b c = Lt → Ascii.compare a c = Lt.
Proof. unfold Ascii.compare. rewrite !N.compare_lt_iff. lia. Qed.

Lemma string_compare_trans s1 s2 s3 :
  String.compare s1 s2 = Lt → String.compare s2 s3 = Lt → String.compare s1 s3 = Lt.
Proof.
  revert s2 s3. induction s1 as [|a s1 IH]; intros [|b s2] [|c s3]; simpl; try done.
  destruct (Ascii.compare a b) eqn:Eab; try done.
  - apply Ascii.compare_eq_iff in Eab as ->.
    destruct (Ascii.compare b c); try done. apply IH.
  - destruct (Ascii.compare b c) eqn:Ebc; try done.
    + apply Ascii.compare_eq_iff in Ebc as <-. by rewrite Eab.
    + by rewrite (ascii_compare_trans a b c).
Qed.

Lemma key_compare_trans a b c :
  Dbh.key_compare a b = Lt → Dbh.key_compare b c = Lt → Dbh.key_compare a c = Lt.
Proof.
  destruct a as [s1 d1], b as [s2 d2], c as [s3 d3]. unfold Dbh.key_compare. simpl.
  destruct (String.compare s1 s2) eqn:E12; try done.
  - apply String.compare_eq_iff in E12 as ->.
    destruct (String.compare s2 s3); try done. apply Z_compare_trans.
  - destruct (String.compare s2 s3) eqn:E23; try done.
    + apply String.compare_eq_iff in E23 as <-. by rewrite E12.
    + by rewrite (string_compare_trans s1 s2 s3).
Qed.

Lemma key_compare_gt a b : Dbh.key_compare a b = Gt → Dbh.key_compare b a = Lt.
Proof.
  destruct a as [s1 d1], b as [s2 d2]. unfold Dbh.key_compare. simpl.
  rewrite (String.compare_antisym s2 s1).
  destruct (String.compare s1 s2); simpl; try done.
  rewrite (Z.compare_antisym d1 d2). by destruct (d1 ?= d2).
Qed.

Lemma fmap_fst_groupby {K R} (kcmp : K → K → comparison) (key : R → option K)
    {B} (f : K * list R → B) (g : B → K) (df : list R) :
  (∀ k rows, g (f (k, rows)) = k) →
  g <$> (f <$> groupby kcmp key df) = group_keys kcmp key df.
Proof.
  intros H. unfold groupby. rewrite <- !list_fmap_compose.
  induction (group_keys kcmp key df) as [|k ks IH]; [done|].
  rewrite fmap_cons. f_equal; [apply H|apply IH].
Qed.

(** X11.  Both summaries list their groups in ascending order of the key,
    each key once: the climate summary by date, the DBH summary by sensor
    id (compared character by character) and then by date. *)
Theorem summary_rows_ascending (argsort : list Z → list nat)
    (pdf : list (option datetime * Climate.record))
    (combined : list (string * Dbh.row (option Q))) :
  StronglySorted Z.lt (cd_Date <$> Climate.grouped argsort pdf) ∧
  StronglySorted (key_lt Dbh.key_compare)
    ((λ row, (dd_Sensor_ID row, dd_Date row)) <$> Dbh.daily combined) ∧
  NoDup ((λ row, (dd_Sensor_ID row, dd_Date row)) <$> Dbh.daily combined).
Proof.
  split; [|split].
  - unfold Climate.grouped. rewrite fmap_fst_groupby by done.
    pose proof (group_keys_sorted Z.compare Climate.Date Z_compare_eq Z_compare_trans
                  Z_compare_gt (Climate.sort_values argsort pdf)) as H.
    induction H as [|k ks _ IH Hall]; constructor; [done|].
    eapply Forall_impl; [exact Hall|]. intros c Hc. by apply Z.compare_lt_iff.
  - unfold Dbh.daily. rewrite fmap_fst_groupby by (by intros [s d] rows).
    apply group_keys_sorted;
      [apply key_compare_eq|apply key_compare_trans|apply key_compare_gt].
  - unfold Dbh.daily. rewrite fmap_fst_groupby by (by intros [s d] rows).
    apply group_keys_NoDup;
      [apply key_compare_eq|apply key_compare_trans|apply key_compare_gt].
Qed.

(** ** Every record with a time is counted once *)

Lemma sum_indicator (keys : list Z) (k0 : Z) :
  NoDup keys →
  sum_list_with (λ k, if bool_decide (k = k0) then 1%nat else 0%nat) keys =
  if bool_decide (k0 ∈ keys) then 1%nat else 0%nat.
Proof.
  induction 1 as [|k keys Hk _ IH].
  - cbn [sum_list_with]. case_bool_decide as H; [|done].
    by apply not_elem_of_nil in H.
  - cbn [sum_list_with]. rewrite IH.
    repeat case_bool_decide; subst; try done;
      try (match goal with
           | H : ¬ _ ∈ _ :: _ |- _ => exfalso; apply H; first [by left | by right]
           end);
      try (match goal with
           | H : _ ∈ _ :: _ |- _ => apply elem_of_cons in H as [?|?]; congruence
           end).
Qed.

Lemma sum_zero {A} (l : list A) : sum_list_with (λ _, 0%nat) l = 0%nat.
Proof. induction l; simpl; lia. Qed.

Lemma length_filter_cons {A} (f : A → bool) (x : A) (l : list A) :
  length (List.filter f (x :: l)) =
  ((if f x then 1 else 0) + length (List.filter f l))%nat.
Proof. simpl. by destruct (f x). Qed.

Lemma sum_list_with_eq {A} (f g : A → nat) (l : list A) :
  (∀ x, f x = g x) → sum_list_with f l = sum_list_with g l.
Proof. intros H. induction l as [|x l IH]; simpl; [done|]. by rewrite H, IH. Qed.

Lemma sum_list_with_plus {A} (f g : A → nat) (l : list A) :
  sum_list_with (λ x, (f x + g x)%nat) l =
  (sum_list_with f l + sum_list_with g l)%nat.
Proof. induction l as [|x l IH]; simpl; [done|]. rewrite IH. lia. Qed.

Lemma group_sizes_add_up {R} (key : R → option Z) (keys : list Z) (l : list R) :
  NoDup keys →
  (∀ r k, r ∈ l → key r = Some k → k ∈ keys) →
  sum_list_with (λ k, length (List.filter (has_key Z.compare key k) l)) keys =
  length (List.filter (λ r, bool_decide (is_Some (key r))) l).
Proof.
  intros Hnd. induction l as [|r l IH]; intros Hcov.
  - apply sum_zero.
  - rewrite length_filter_cons.
    rewrite <- IH by (intros r' k Hr'; apply Hcov; by right).
    rewrite (sum_list_with_eq _
      (λ k, ((if has_key Z.compare key k r then 1 else 0) +
             length (List.filter (has_key Z.compare key k) l))%nat))
      by (intros k; apply length_filter_cons).
    rewrite sum_list_with_plus. f_equal.
    destruct (key r) as [k0|] eqn:E.
    + rewrite (sum_list_with_eq _ (λ k, if bool_decide (k = k0) then 1%nat else 0%nat)).
      * rewrite sum_indicator by done.
        by rewrite bool_decide_eq_true_2 by (eapply Hcov; [left|done]).
      * intros k. unfold has_key. rewrite E. case_bool_decide as Hk.
        -- subst. by rewrite Z.compare_refl.
        -- destruct (Z.compare k k0) eqn:Ec; try done.
           by apply Z.compare_eq_iff in Ec.
    + rewrite (sum_list_with_eq _ (λ _, 0%nat)).
      * by rewrite sum_zero.
      * intros k. unfold has_key. by rewrite E.
Qed.

Lemma parsed_has_time to_datetime df pdf :
  Climate.parsed to_datetime df = Ok pdf →
  length (List.filter (λ p, bool_decide (is_Some (Climate.Date p))) pdf) =
  length (List.filter (has_time to_datetime) df).
Proof.
  intros H. apply parsed_rows in H.
  induction H as [|r p df pdf [_ Hr] _ IH]; [done|].
  rewrite !length_filter_cons, IH. f_equal.
  unfold has_time, Climate.Date. rewrite Hr. by destruct p.1.
Qed.

(** X12.  The Rows of a climate summary add up to the number of records of
    the file whose Timestamp parses to a time: such a record is counted in
    one row, once, and a record without a time in none. *)
Theorem rows_add_up (to_datetime : string → result (option datetime))
    (argsort : list Z → list nat) (df : list Climate.record)
    (pdf : list (option datetime * Climate.record)) :
  sort_contract argsort →
  Climate.parsed to_datetime df = Ok pdf →
  sum_list (Rows <$> Climate.grouped argsort pdf) =
  length (List.filter (has_time to_datetime) df).
Proof.
  intros Hc Hp. rewrite <- (parsed_has_time _ _ _ Hp).
  pose proof (climate_sort_values_perm argsort pdf Hc) as Hperm.
  rewrite <- (Permutation_length (filter_perm _ _ _ Hperm)).
  rewrite <- (group_sizes_add_up Climate.Date
                (group_keys Z.compare Climate.Date (Climate.sort_values argsort pdf))).
  - unfold Climate.grouped, groupby. rewrite <- !list_fmap_compose.
    generalize (group_keys Z.compare Climate.Date (Climate.sort_values argsort pdf)).
    intros ks. induction ks as [|k ks IH]; [done|].
    rewrite fmap_cons. simpl. rewrite IH. f_equal.
    unfold Climate.count. rewrite filter_all; [done|].
    intros p Hin. apply (group_elem _ _ Z_compare_eq) in Hin as [_ Hd].
    unfold Climate.Date in Hd. by destruct p.1.
  - apply group_keys_NoDup; [apply Z_compare_eq|apply Z_compare_trans|apply Z_compare_gt].
  - intros r k Hr Hk. apply (group_keys_elem _ _ Z_compare_eq). eauto.
Qed.

Lemma rows_add_up_witness :
  sum_list (Rows <$> Climate.grouped stable_argsort station_a_march_parsed) =
  length (List.filter (has_time sample_to_datetime) station_a_march).
Proof.
  apply (rows_add_up sample_to_datetime stable_argsort).
  - apply sort_contract_insertion.
  - reflexivity.
Defined.

(** ** The frame [compute_dbh_df] returns *)

Lemma sort_values_times argsort (df : list (Dbh.row Dbh.cell)) :
  (λ r, to_minutes (Dbh.Timestamp r)) <$> Dbh.sort_values argsort df =
  omap (λ i, ((λ r, to_minutes (Dbh.Timestamp r)) <$> df) !! i)
       (argsort ((λ r, to_minutes (Dbh.Timestamp r)) <$> df)).
Proof.
  unfold Dbh.sort_values, take_rows.
  generalize (argsort ((λ r, to_minutes (Dbh.Timestamp r)) <$> df)).
  intros idx. induction idx as [|i idx IH]; [done|]. csimpl.
  rewrite list_lookup_fmap. destruct (df !! i); csimpl; [by rewrite IH|done].
Qed.

(** X13.  The frame [compute_dbh_df] returns is in ascending order of the
    converted Timestamp and holds every line after the header once: its
    index labels are the positions 0 .. n-1 of the data lines, each one
    time. *)
Theorem compute_dbh_df_time_order (utcoffset : Z → Z)
    (argsort : list Z → list nat) (raw : list Dbh.raw_row)
    (df : list (Dbh.row (option Q))) :
  sort_contract argsort →
  Dbh.compute_dbh_df utcoffset argsort raw = Ok df →
  Sorted Z.le ((λ r, to_minutes (Dbh.Timestamp r)) <$> df) ∧
  Dbh.label <$> df ≡ₚ seq 0 (length raw - Dbh.start_row).
Proof.
  intros Hc H. split.
  - revert H. unfold Dbh.compute_dbh_df.
    destruct (Dbh.converted _ _) as [df0|] eqn:E0; [|done]. simpl. intros H.
    apply rollover_correction_rows in H.
    rewrite coerce_size_to_numeric, Forall2_fmap_l in H.
    rewrite (Forall2_fmap_eq (λ r, to_minutes (Dbh.Timestamp r))
               (λ r, to_minutes (Dbh.Timestamp r))
               (Dbh.sort_values argsort df0) df).
    + rewrite sort_values_times. apply Hc.
    + eapply Forall2_impl; [exact H|]. intros r0 r (_ & Ht & _). simpl in Ht.
      by rewrite Ht.
  - rewrite (compute_dbh_df_labels _ _ _ _ Hc H). by rewrite length_drop.
Qed.

Lemma compute_dbh_df_time_order_witness :
  Sorted Z.le ((λ r, to_minutes (Dbh.Timestamp r)) <$> combined_sample.*2) ∧
  Dbh.label <$> combined_sample.*2 ≡ₚ seq 0 (length noisy_file - Dbh.start_row).
Proof.
  apply (compute_dbh_df_time_order us_eastern_2007 stable_argsort noisy_file).
  - apply sort_contract_insertion.
  - vm_compute. reflexivity.
Defined.

(** ** The two lists of files *)

Lemma ends_with_lower suffix s :
  lower suffix = suffix → ends_with suffix s = true → ends_with suffix (lower s) = true.
Proof.
  intros Hsuf. induction s as [|c s IH]; cbn [ends_with lower].
  - rewrite !orb_false_r. done.
  - intros [H%String.eqb_eq|H]%orb_true_iff; apply orb_true_iff.
    + left. subst suffix. apply String.eqb_eq. exact Hsuf.
    + right. by apply IH.
Qed.

(** X14.  A file name the climate pass takes ([endswith(".csv")]) is one
    the DBH pass takes too ([lower().endswith(".csv")]): the DBH filter is
    the wider one.  The converse fails at an upper-case extension. *)
Theorem csv_filter_wider (file : string) :
  ends_with ".csv" file = true → Dbh.is_csv_any_case file = true.
Proof. apply ends_with_lower. reflexivity. Qed.

Lemma csv_filter_wider_witness :
  Dbh.is_csv_any_case "A_march.csv" = true.
Proof. apply (csv_filter_wider "A_march.csv"). reflexivity. Defined.

(** ** The whole run *)

Lemma summarize_folder_frame to_datetime argsort folder dest fs p :
  (∀ f, f ∈ folder → ends_with ".csv" f.1 = true →
        p ≠ Climate.dest_path dest (station_of f.1)) →
  (Climate.summarize_folder to_datetime argsort folder dest fs).2 !! p = fs !! p.
Proof.
  unfold Climate.summarize_folder. revert fs.
  induction folder as [|[file df] folder IH]; intros fs Hp; [done|].
  cbn [for_each]. unfold sbind at 1.
  destruct (ends_with ".csv" file) eqn:Ecsv.
  - unfold Climate.daily_summary, sbind, lift, to_csv.
    destruct (Climate.parsed to_datetime df) as [pdf|e]; [|done].
    rewrite IH by (intros f Hf; apply Hp; by right).
    apply lookup_insert_ne. intros Heq.
    by apply (Hp (file, df)); [left|..].
  - unfold ret. apply IH. intros f Hf. apply Hp. by right.
Qed.

Lemma process_dbh_folder_frame utcoffset argsort folder fs p :
  p ≠ Dbh.out_path →
  (Dbh.process_dbh_folder utcoffset argsort folder fs).2 !! p = fs !! p.
Proof.
  intros Hp. unfold Dbh.process_dbh_folder, sbind, lift, to_csv, ret.
  destruct (Dbh.all_data _ _ _) as [[|df dfs]|e]; [done| |done].
  simpl. by apply lookup_insert_ne.
Qed.

Lemma main_after_climate utcoffset to_datetime argsort w fs p :
  p ≠ Dbh.out_path →
  (main utcoffset to_datetime argsort w fs).2 !! p =
  (Climate.summarize_folder to_datetime argsort (EXTRACT_FOLDER w)
     SUMMARIES_FOLDER fs).2 !! p.
Proof.
  intros Hp. unfold main. unfold sbind at 1.
  destruct (Climate.summarize_folder _ _ _ _ _) as [[[]|e] fs1]; [|done].
  unfold sbind. simpl.
  pose proof (process_dbh_folder_frame utcoffset argsort (DBH_STATIC_FOLDER w)
                fs1 p Hp) as Hd.
  destruct (Dbh.process_dbh_folder _ _ _ _) as [[d|e] fs2]; simpl in *; [|done].
  unfold join_metadata. by destruct (_ && _).
Qed.

Lemma dest_path_not_out_path station :
  Climate.dest_path SUMMARIES_FOLDER station ≠ Dbh.out_path.
Proof.
  unfold Climate.dest_path, Dbh.out_path, path_join. intros H.
  change (ends_with "/" SUMMARIES_FOLDER || String.eqb SUMMARIES_FOLDER "") with false in H.
  cbv iota in H. apply string_app_inj_l, string_app_inj_l in H.
  do 6 (destruct station as [|? station]; [discriminate H|];
        cbn [String.append] in H; injection H as _ H).
  apply (f_equal String.length) in H. rewrite string_app_length in H.
  cbn in H. lia.
Qed.

(** X15.  The DBH pass and the metadata step leave the climate summaries
    alone: at the end of [main], whether it ends well or with an
    exception, the path of the daily summary of any station holds what the
    climate pass left there.  No station id makes the two output names
    meet. *)
Theorem dbh_pass_spares_climate_summaries (utcoffset : Z → Z)
    (to_datetime : string → result (option datetime))
    (argsort : list Z → list nat) (w : world) (fs : gmap string table)
    (station : string) :
  (main utcoffset to_datetime argsort w fs).2
    !! Climate.dest_path SUMMARIES_FOLDER station =
  (Climate.summarize_folder to_datetime argsort (EXTRACT_FOLDER w)
     SUMMARIES_FOLDER fs).2 !! Climate.dest_path SUMMARIES_FOLDER station.
Proof. apply main_after_climate, dest_path_not_out_path. Qed.

(** X16.  [main] writes nowhere else: a path that is neither the DBH
    summary nor the daily summary of a csv file of the climate folder holds
    at the end of the run what it held at the start, whether the run ends
    well or with an exception. *)
Theorem main_writes_only_summaries (utcoffset : Z → Z)
    (to_datetime : string → result (option datetime))
    (argsort : list Z → list nat) (w : world) (fs : gmap string table)
    (p : string) :
  p ≠ Dbh.out_path →
  (∀ f, f ∈ EXTRACT_FOLDER w → ends_with ".csv" f.1 = true →
        p ≠ Climate.dest_path SUMMARIES_FOLDER (station_of f.1)) →
  (main utcoffset to_datetime argsort w fs).2 !! p = fs !! p.
Proof.
  intros Hd Hc. rewrite main_after_climate by done.
  by apply summarize_folder_frame.
Qed.

Lemma main_writes_only_summaries_witness :
  (main us_eastern_2007 sample_to_datetime stable_argsort sample_world ∅).2
    !! "./Raw/A_march.csv" = (∅ : gmap string table) !! "./Raw/A_march.csv".
Proof.
  apply (main_writes_only_summaries us_eastern_2007 sample_to_datetime
           stable_argsort sample_world ∅ "./Raw/A_march.csv").
  - discriminate.
  - intros f Hf Hcsv. vm_compute in Hf.
    repeat (apply elem_of_cons in Hf as [->|Hf]; [vm_compute; discriminate|]).
    by apply elem_of_nil in Hf.
Defined.
